(** * Column predicates of the storage engine: a shallow embedding

    Embedded sources:
    - [be/src/olap/column_predicate.h]: the predicate taxonomy, the zone-map
      value decoder, the selection-vector compaction macro, the base class
      [ColumnPredicate] with its selectivity sampler and profile counters;
    - [be/src/vec/functions/multiply.cpp]: the DecimalV2 multiply kernel.

    Integers of fixed width are [Z] with the wrap-around written out, the
    selection vector is a [list Z] read and written by index, the profile
    counters live in a [gmap] heap addressed by the shared pointers, and code
    that can throw returns an [Outcome]. *)

From Stdlib Require Import ZArith Lia QArith.
From Stdlib.Strings Require Import Byte.
From stdpp Require Import base tactics option list gmap strings.

#[local] Open Scope Z_scope.

(* ===================================================================== *)
(** * Part I: definitions                                                 *)
(* ===================================================================== *)

(** ** Machine integers *)

Definition wrap_unsigned (bits : Z) (x : Z) : Z := x mod 2 ^ bits.

Definition wrap_signed (bits : Z) (x : Z) : Z :=
  (x + 2 ^ (bits - 1)) mod 2 ^ bits - 2 ^ (bits - 1).

Definition to_uint16 : Z → Z := wrap_unsigned 16.
Definition to_uint64 : Z → Z := wrap_unsigned 64.
Definition to_int32 : Z → Z := wrap_signed 32.
Definition to_int64 : Z → Z := wrap_signed 64.
Definition to_int128 : Z → Z := wrap_signed 128.

Definition UINT16_MAX : Z := 65535.
Definition INT128_MAX : Z := 2 ^ 127 - 1.
Definition INT128_MIN : Z := - 2 ^ 127.

Definition in_int128 (x : Z) : Prop := INT128_MIN ≤ x ≤ INT128_MAX.

(** ** Predicate taxonomy *)

(** [enum class PredicateType], with the underlying values of the source. *)
Module PredicateType.

Inductive t : Set :=
  | UNKNOWN
  | EQ
  | NE
  | LT
  | LE
  | GT
  | GE
  | IN_LIST
  | NOT_IN_LIST
  | IS_NULL
  | IS_NOT_NULL
  | BF
  | BITMAP_FILTER
  | MATCH.

Definition to_underlying (type : t) : Z :=
  match type with
  | UNKNOWN => 0
  | EQ => 1
  | NE => 2
  | LT => 3
  | LE => 4
  | GT => 5
  | GE => 6
  | IN_LIST => 7
  | NOT_IN_LIST => 8
  | IS_NULL => 9
  | IS_NOT_NULL => 10
  | BF => 11
  | BITMAP_FILTER => 12
  | MATCH => 13
  end.

(** [operator==] of a scoped enumeration compares the underlying values. *)
Definition eqb (a b : t) : bool := to_underlying a =? to_underlying b.

Definition all : list t :=
  [UNKNOWN; EQ; NE; LT; LE; GT; GE; IN_LIST; NOT_IN_LIST; IS_NULL;
   IS_NOT_NULL; BF; BITMAP_FILTER; MATCH].

End PredicateType.

Abbreviation PredicateType := PredicateType.t.

Infix "==" := PredicateType.eqb (at level 70, no associativity) : bool_scope.

(** The free function [type_to_string]: twelve cases and a default. *)
Definition type_to_string (type : PredicateType) : string :=
  match type with
  | PredicateType.UNKNOWN => "UNKNOWN"
  | PredicateType.EQ => "EQ"
  | PredicateType.NE => "NE"
  | PredicateType.LT => "LT"
  | PredicateType.LE => "LE"
  | PredicateType.GT => "GT"
  | PredicateType.GE => "GE"
  | PredicateType.IN_LIST => "IN_LIST"
  | PredicateType.NOT_IN_LIST => "NOT_IN_LIST"
  | PredicateType.IS_NULL => "IS_NULL"
  | PredicateType.IS_NOT_NULL => "IS_NOT_NULL"
  | PredicateType.BF => "BF"
  | _ => ""
  end.

(** The kinds [type_to_string] has a [case] label for. *)
Definition type_to_string_has_case (type : PredicateType) : bool :=
  match type with
  | PredicateType.BITMAP_FILTER | PredicateType.MATCH => false
  | _ => true
  end.

(** The static member [ColumnPredicate::pred_type_string]: twelve cases and a
    default. *)
Definition pred_type_string (type : PredicateType) : string :=
  match type with
  | PredicateType.EQ => "eq"
  | PredicateType.NE => "ne"
  | PredicateType.LT => "lt"
  | PredicateType.LE => "le"
  | PredicateType.GT => "gt"
  | PredicateType.GE => "ge"
  | PredicateType.IN_LIST => "in"
  | PredicateType.NOT_IN_LIST => "not_in"
  | PredicateType.IS_NULL => "is_null"
  | PredicateType.IS_NOT_NULL => "is_not_null"
  | PredicateType.BF => "bf"
  | PredicateType.MATCH => "match"
  | _ => "unknown"
  end.

(** The kinds [pred_type_string] has a [case] label for. *)
Definition pred_type_string_has_case (type : PredicateType) : bool :=
  match type with
  | PredicateType.UNKNOWN | PredicateType.BITMAP_FILTER => false
  | _ => true
  end.

(** [struct PredicateTypeTraits]. *)
Module PredicateTypeTraits.

Definition is_range (type : PredicateType) : bool :=
  (type == PredicateType.LT) || (type == PredicateType.LE) ||
  (type == PredicateType.GT) || (type == PredicateType.GE).

Definition is_bloom_filter (type : PredicateType) : bool :=
  type == PredicateType.BF.

Definition is_list (type : PredicateType) : bool :=
  (type == PredicateType.IN_LIST) || (type == PredicateType.NOT_IN_LIST).

Definition is_equal_or_list (type : PredicateType) : bool :=
  (type == PredicateType.EQ) || (type == PredicateType.IN_LIST).

Definition is_comparison (type : PredicateType) : bool :=
  (type == PredicateType.EQ) || (type == PredicateType.NE) ||
  (type == PredicateType.LT) || (type == PredicateType.LE) ||
  (type == PredicateType.GT) || (type == PredicateType.GE).

End PredicateTypeTraits.

(** ** The zone-map value decoder: [get_zone_map_value] *)

(** Modelled from the spec: [enum PrimitiveType] is declared in
    [runtime/define_primitive_type.h], which is not among the embedded sources.
    The decoder tells three members apart (the spec's "packed two-part
    fixed-point value", "packed 3-byte date" and "packed 8-byte datetime");
    "all other primitive types" are [TYPE_OTHER] with their tag. *)
Inductive PrimitiveType : Set :=
| TYPE_DECIMALV2
| TYPE_DATE
| TYPE_DATETIME
| TYPE_OTHER (tag : Z).

Definition PrimitiveType_eqb (a b : PrimitiveType) : bool :=
  match a, b with
  | TYPE_DECIMALV2, TYPE_DECIMALV2 => true
  | TYPE_DATE, TYPE_DATE => true
  | TYPE_DATETIME, TYPE_DATETIME => true
  | TYPE_OTHER s, TYPE_OTHER t => s =? t
  | _, _ => false
  end.

(** The integer a run of bytes holds, least significant byte first. *)
Definition little_endian (bytes : list byte) : Z :=
  foldr (λ b acc, Z.of_N (Byte.to_N b) + 256 * acc) 0 bytes.

(** [memcpy(dst, src, n)] reads the first [n] bytes at [src]; a run shorter
    than [n] cannot be read ([None]).  The decoder itself never looks at the
    length of the run. *)
Definition memcpy (n : nat) (src : list byte) : option (list byte) :=
  if (n <=? length src)%nat then Some (take n src) else None.

(** Modelled from the spec: [decimal12_t] and [uint24_t] are declared outside
    the embedded sources.  The spec has the decimal "integer part +
    fractional part packed into 12 bytes" and the date "packed 3-byte": a
    packed [int64_t integer] followed by an [int32_t fraction], and a 24-bit
    unsigned integer, in the byte order of the little-endian targets. *)
Definition sizeof_decimal12_t : nat := 12.
Definition sizeof_uint24_t : nat := 3.
Definition sizeof_uint64_t : nat := 8.

Definition decimal12_integer (object : list byte) : Z :=
  to_int64 (little_endian (take 8 object)).

Definition decimal12_fraction (object : list byte) : Z :=
  to_int32 (little_endian (take 4 (drop 8 object))).

Definition uint24_value (object : list byte) : Z := little_endian object.

Definition uint64_value (object : list byte) : Z := little_endian object.

(** What the template asks of [ResultType]: default construction, its size,
    the three member functions that decode into the object, and the value an
    object representation of [sizeof(ResultType)] bytes stands for. *)
Class ZoneMapResult (ResultType : Type) : Type := {
  default_constructed : ResultType;
  sizeof_ResultType : nat;
  from_olap_decimal : ResultType → Z → Z → ResultType;
  from_olap_date : ResultType → Z → ResultType;
  from_olap_datetime : ResultType → Z → ResultType;
  from_object_representation : list byte → ResultType
}.

(** [get_zone_map_value<primitive_type, ResultType>(data_ptr)]. *)
Definition get_zone_map_value {ResultType} `{ZoneMapResult ResultType}
    (primitive_type : PrimitiveType) (data_ptr : list byte)
    : option ResultType :=
  let res := default_constructed in
  if PrimitiveType_eqb primitive_type TYPE_DECIMALV2 then
    match memcpy sizeof_decimal12_t data_ptr with
    | Some decimal_12_t_value =>
        Some (from_olap_decimal res
                (decimal12_integer decimal_12_t_value)
                (decimal12_fraction decimal_12_t_value))
    | None => None
    end
  else if PrimitiveType_eqb primitive_type TYPE_DATE then
    match memcpy sizeof_uint24_t data_ptr with
    | Some date => Some (from_olap_date res (uint24_value date))
    | None => None
    end
  else if PrimitiveType_eqb primitive_type TYPE_DATETIME then
    match memcpy sizeof_uint64_t data_ptr with
    | Some datetime => Some (from_olap_datetime res (uint64_value datetime))
    | None => None
    end
  else
    match memcpy sizeof_ResultType data_ptr with
    | Some object => Some (from_object_representation object)
    | None => None
    end.

(** The number of bytes the decoder reads for a primitive type. *)
Definition bytes_read {ResultType} `{ZoneMapResult ResultType}
    (primitive_type : PrimitiveType) : nat :=
  match primitive_type with
  | TYPE_DECIMALV2 => sizeof_decimal12_t
  | TYPE_DATE => sizeof_uint24_t
  | TYPE_DATETIME => sizeof_uint64_t
  | TYPE_OTHER _ => sizeof_ResultType
  end.

(** A result type that records how it was decoded. *)
Inductive Decoded : Type :=
| Default_constructed
| From_olap_decimal (integer fraction : Z)
| From_olap_date (date : Z)
| From_olap_datetime (datetime : Z)
| Reinterpreted (object : list byte).

Definition Decoded_result (size : nat) : ZoneMapResult Decoded :=
  {| default_constructed := Default_constructed;
     sizeof_ResultType := size;
     from_olap_decimal := λ _ integer fraction, From_olap_decimal integer fraction;
     from_olap_date := λ _ date, From_olap_date date;
     from_olap_datetime := λ _ datetime, From_olap_datetime datetime;
     from_object_representation := Reinterpreted |}.

(** ** Outcomes of a call *)

Inductive ErrorCode : Set :=
| INTERNAL_ERROR
| ARITHMETIC_OVERFLOW_ERRROR.

(** Modelled from the spec: [Exception] and the macro
    [THROW_DECIMAL_BINARY_OP_OVERFLOW_EXCEPTION] are declared in
    [common/exception.h], which is not among the embedded sources.
    [Exception_ code msg] is [Exception(code, msg)].  The macro, in the spec's
    words, signals "an arithmetic-overflow condition carrying both operands
    and the offending intermediate result": [DecimalBinaryOpOverflow] carries
    the five arguments the macro is given (the operands and the result as the
    128-bit values that the source renders with [to_string]). *)
Inductive Exception : Type :=
| Exception_ (code : ErrorCode) (msg : string)
| DecimalBinaryOpOverflow (l : Z) (op : string) (r : Z) (result : Z)
    (type_name : string).

(** Modelled from the spec: [Status] is declared outside the embedded
    sources; the spec has it a "typed status value", "not an exception".  The
    values are told apart by the factory that builds them. *)
Inductive Status : Type :=
| Status_OK
| Status_NotSupported (msg : string)
| Status_Error (code : Z) (msg : string).

(** A call returns, throws, hits a failed [DCHECK] of a debug build, or leaves
    defined behaviour (a null shared pointer dereferenced, a buffer accessed
    out of bounds). *)
Inductive Outcome (A : Type) : Type :=
| Returned (a : A)
| Thrown (e : Exception)
| CheckFailed (msg : string)
| Undefined.

Arguments Returned {A} a.
Arguments Thrown {A} e.
Arguments CheckFailed {A} msg.
Arguments Undefined {A}.

Definition fails_hard {A} (o : Outcome A) : bool :=
  match o with Returned _ => false | _ => true end.

(** ** Collaborators that are declared outside the embedded sources *)

(** The column abstraction, the index and statistics objects, the [double]
    of the ignore threshold, the configuration value
    [config::runtime_filter_sampling_frequency], the selectivity judgment
    [VRuntimeFilterWrapper::judge_selectivity] (its last argument is the
    [always_true] reference it is handed, its result what it leaves there) and
    whether [DCHECK] is compiled in. *)
Class Collaborators : Type := {
  IColumn : Type;
  IColumn_size : IColumn → Z;
  WrapperField : Type;
  BloomFilter : Type;
  BitmapIndexIterator : Type;
  IndexIterator : Type;
  IndexFieldNameAndTypePair : Type;
  double : Type;
  double_zero : double;
  runtime_filter_sampling_frequency : Z;
  judge_selectivity : double → Z → Z → bool → bool;
  DCHECK_IS_ON : bool
}.

(** ** Selection-vector compaction: [EVALUATE_BY_SELECTOR] *)

(** One run of the macro's [for] loop.  [remaining] is [size - i]; the buffer
    [sel] is read at [i] on the sparse path and written at [new_size]. Reading
    or writing outside the buffer is undefined ([None]). *)
Fixpoint EVALUATE_BY_SELECTOR_loop
    (is_nullable : bool)
    (EVALUATE_IMPL_WITH_NULL_MAP EVALUATE_IMPL_WITHOUT_NULL_MAP : Z → bool)
    (is_dense_column : bool) (remaining : nat)
    (i : Z) (sel : list Z) (new_size : Z) : option (list Z * Z) :=
  match remaining with
  | O => Some (sel, new_size)
  | S remaining' =>
      match (if is_dense_column then Some i else sel !! Z.to_nat i) with
      | None => None
      | Some idx =>
          let keep :=
            if is_nullable then EVALUATE_IMPL_WITH_NULL_MAP idx
            else EVALUATE_IMPL_WITHOUT_NULL_MAP idx in
          if keep then
            if Z.to_nat new_size <? length sel then
              EVALUATE_BY_SELECTOR_loop is_nullable
                EVALUATE_IMPL_WITH_NULL_MAP EVALUATE_IMPL_WITHOUT_NULL_MAP
                is_dense_column remaining' (to_uint16 (i + 1))
                (<[Z.to_nat new_size := idx]> sel) (to_uint16 (new_size + 1))
            else None
          else
            EVALUATE_BY_SELECTOR_loop is_nullable
              EVALUATE_IMPL_WITH_NULL_MAP EVALUATE_IMPL_WITHOUT_NULL_MAP
              is_dense_column remaining' (to_uint16 (i + 1)) sel new_size
      end
  end%nat.

(** The macro: [pred_col_size] is [pred_col.size()], [new_size] the caller's
    running count. *)
Definition EVALUATE_BY_SELECTOR
    (is_nullable : bool)
    (EVALUATE_IMPL_WITH_NULL_MAP EVALUATE_IMPL_WITHOUT_NULL_MAP : Z → bool)
    (pred_col_size : Z) (sel : list Z) (size : Z) (new_size : Z)
    : option (list Z * Z) :=
  let is_dense_column := pred_col_size =? size in
  EVALUATE_BY_SELECTOR_loop is_nullable
    EVALUATE_IMPL_WITH_NULL_MAP EVALUATE_IMPL_WITHOUT_NULL_MAP
    is_dense_column (Z.to_nat size) 0 sel new_size.

(** The row test the macro applies: chosen once by [is_nullable]. *)
Definition selector_test (is_nullable : bool) (WITH WITHOUT : Z → bool)
    : Z → bool :=
  if is_nullable then WITH else WITHOUT.

(** The identity selection [0 .. size-1] of the dense path. *)
Definition identity_selection (size : Z) : list Z := seqZ 0 size.

(** The selection the macro walks: the identity on the dense path, the first
    [size] entries of the buffer on the sparse path. *)
Definition walked_selection (pred_col_size : Z) (sel : list Z) (size : Z)
    : list Z :=
  if pred_col_size =? size then identity_selection size
  else take (Z.to_nat size) sel.

Definition strictly_increasing (l : list Z) : Prop :=
  ∀ (i j : nat) (x y : Z), (i < j)%nat → l !! i = Some x → l !! j = Some y → x < y.

(** ** The base class [ColumnPredicate] *)

(** A [std::shared_ptr<RuntimeProfile::Counter>]: null, or the address of a
    counter in the heap of counters. *)
Definition shared_ptr : Set := option positive.
Definition nullptr : shared_ptr := None.

Record ColumnPredicate : Set := {
  _column_id : Z;
  _opposite : bool;
  _runtime_filter_id : Z;
  _judge_counter : Z;
  _judge_input_rows : Z;
  _judge_filter_rows : Z;
  _always_true : bool;
  _predicate_filtered_rows_counter : shared_ptr;
  _predicate_input_rows_counter : shared_ptr
}.

(** Ghost log of the calls [evaluate] makes, oldest first. *)
Inductive Call : Set :=
| Call_evaluate_inner (size : Z)
| Call_do_judge_selectivity (filter_rows input_rows : Z)
| Call_update_filter_info (filter_rows input_rows : Z).

(** What a member function can see and change: the object, the heap of
    profile counters its shared pointers lead to, the caller's selection
    buffer, and the call log. *)
Record World : Type := {
  this : ColumnPredicate;
  counters : gmap positive Z;
  sel : list Z;
  calls : list Call
}.

Definition set_this (p : ColumnPredicate) (w : World) : World :=
  {| this := p; counters := counters w; sel := sel w; calls := calls w |}.
Definition set_counters (h : gmap positive Z) (w : World) : World :=
  {| this := this w; counters := h; sel := sel w; calls := calls w |}.
Definition set_sel (s : list Z) (w : World) : World :=
  {| this := this w; counters := counters w; sel := s; calls := calls w |}.
Definition log_call (c : Call) (w : World) : World :=
  {| this := this w; counters := counters w; sel := sel w;
     calls := calls w ++ [c] |}.

(** State and failure threaded through the member functions. *)
Definition M (A : Type) : Type := World → Outcome A * World.

Definition ret {A} (a : A) : M A := λ w, (Returned a, w).

Definition bind {A B} (m : M A) (f : A → M B) : M B :=
  λ w, match m w with
       | (Returned a, w') => f a w'
       | (Thrown e, w') => (Thrown e, w')
       | (CheckFailed msg, w') => (CheckFailed msg, w')
       | (Undefined, w') => (Undefined, w')
       end.

Definition get_this : M ColumnPredicate := λ w, (Returned (this w), w).
Definition modify (f : World → World) : M unit := λ w, (Returned tt, f w).
Definition when (b : bool) (m : M unit) : M unit := if b then m else ret tt.

Notation "x <- m ;; k" := (bind m (λ x, k))
  (at level 100, m at next level, right associativity).

(** Field updates of the object. *)
Definition with_runtime_filter_id (v : Z) (p : ColumnPredicate) :=
  {| _column_id := _column_id p; _opposite := _opposite p;
     _runtime_filter_id := v;
     _judge_counter := _judge_counter p;
     _judge_input_rows := _judge_input_rows p;
     _judge_filter_rows := _judge_filter_rows p;
     _always_true := _always_true p;
     _predicate_filtered_rows_counter := _predicate_filtered_rows_counter p;
     _predicate_input_rows_counter := _predicate_input_rows_counter p |}.

Definition with_judge_counter (v : Z) (p : ColumnPredicate) :=
  {| _column_id := _column_id p; _opposite := _opposite p;
     _runtime_filter_id := _runtime_filter_id p;
     _judge_counter := v;
     _judge_input_rows := _judge_input_rows p;
     _judge_filter_rows := _judge_filter_rows p;
     _always_true := _always_true p;
     _predicate_filtered_rows_counter := _predicate_filtered_rows_counter p;
     _predicate_input_rows_counter := _predicate_input_rows_counter p |}.

Definition with_judge_input_rows (v : Z) (p : ColumnPredicate) :=
  {| _column_id := _column_id p; _opposite := _opposite p;
     _runtime_filter_id := _runtime_filter_id p;
     _judge_counter := _judge_counter p;
     _judge_input_rows := v;
     _judge_filter_rows := _judge_filter_rows p;
     _always_true := _always_true p;
     _predicate_filtered_rows_counter := _predicate_filtered_rows_counter p;
     _predicate_input_rows_counter := _predicate_input_rows_counter p |}.

Definition with_judge_filter_rows (v : Z) (p : ColumnPredicate) :=
  {| _column_id := _column_id p; _opposite := _opposite p;
     _runtime_filter_id := _runtime_filter_id p;
     _judge_counter := _judge_counter p;
     _judge_input_rows := _judge_input_rows p;
     _judge_filter_rows := v;
     _always_true := _always_true p;
     _predicate_filtered_rows_counter := _predicate_filtered_rows_counter p;
     _predicate_input_rows_counter := _predicate_input_rows_counter p |}.

Definition with_always_true (v : bool) (p : ColumnPredicate) :=
  {| _column_id := _column_id p; _opposite := _opposite p;
     _runtime_filter_id := _runtime_filter_id p;
     _judge_counter := _judge_counter p;
     _judge_input_rows := _judge_input_rows p;
     _judge_filter_rows := _judge_filter_rows p;
     _always_true := v;
     _predicate_filtered_rows_counter := _predicate_filtered_rows_counter p;
     _predicate_input_rows_counter := _predicate_input_rows_counter p |}.

Definition with_predicate_filtered_rows_counter (v : shared_ptr)
    (p : ColumnPredicate) :=
  {| _column_id := _column_id p; _opposite := _opposite p;
     _runtime_filter_id := _runtime_filter_id p;
     _judge_counter := _judge_counter p;
     _judge_input_rows := _judge_input_rows p;
     _judge_filter_rows := _judge_filter_rows p;
     _always_true := _always_true p;
     _predicate_filtered_rows_counter := v;
     _predicate_input_rows_counter := _predicate_input_rows_counter p |}.

Definition with_predicate_input_rows_counter (v : shared_ptr)
    (p : ColumnPredicate) :=
  {| _column_id := _column_id p; _opposite := _opposite p;
     _runtime_filter_id := _runtime_filter_id p;
     _judge_counter := _judge_counter p;
     _judge_input_rows := _judge_input_rows p;
     _judge_filter_rows := _judge_filter_rows p;
     _always_true := _always_true p;
     _predicate_filtered_rows_counter := _predicate_filtered_rows_counter p;
     _predicate_input_rows_counter := v |}.

Definition modify_this (f : ColumnPredicate → ColumnPredicate) : M unit :=
  modify (λ w, set_this (f (this w)) w).

(** Modelled from the spec: [DCHECK] comes from the logging library; the
    spec has null counters rejected "via assertion", a "fatal-by-design"
    failure.  The check is compiled out of a release build and fatal in a
    debug build when the condition is false. *)
Definition DCHECK `{Collaborators} (condition : bool) (text : string) : M unit :=
  if DCHECK_IS_ON && negb condition
  then λ w, (CheckFailed text, w)
  else ret tt.

(** A row-id bitmap ([roaring::Roaring]). *)
Definition Roaring : Type := gset Z.

(** The raw-column kernel of a variant: from the column, the buffer [sel] and
    [size] (a [uint16_t]) to the new count (a [uint16_t]) or a failure, and
    the buffer as the kernel leaves it. *)
Definition Kernel `{Collaborators} : Type :=
  IColumn → list Z → Z → Outcome Z * list Z.

(** A concrete variant: its kind and the virtual member functions it
    overrides ([None]: the body of the base class is inherited). *)
Record Variant `{Collaborators} : Type := {
  type : PredicateType;
  evaluate_inverted_index_override :
    option (IndexFieldNameAndTypePair → IndexIterator → Z → Roaring →
            Status * Roaring);
  get_ignore_threshold_override : option double;
  evaluate_and_column_override :
    option (IColumn → list Z → Z → list bool → list bool);
  evaluate_or_column_override :
    option (IColumn → list Z → Z → list bool → list bool);
  support_zonemap_override : option bool;
  evaluate_and_statistic_override : option (WrapperField * WrapperField → bool);
  is_always_true_override : option (WrapperField * WrapperField → bool);
  evaluate_del_override : option (WrapperField * WrapperField → bool);
  evaluate_and_bloom_filter_override : option (BloomFilter → bool);
  evaluate_and_dict_words_override : option (list string → Z → bool);
  can_do_bloom_filter_override : option (bool → bool);
  evaluate_vec_override : option (IColumn → Z → list bool → list bool);
  evaluate_and_vec_override : option (IColumn → Z → list bool → list bool);
  get_search_str_override : option string;
  set_page_ng_bf_override : option (BloomFilter → M unit);
  is_runtime_filter_override : option (ColumnPredicate → bool);
  _can_ignore_override : option (ColumnPredicate → bool);
  _evaluate_inner_override : option Kernel
}.

(** The bodies the base class gives to its virtual member functions. *)
Module Base.
Section Base.
Context `{Collaborators}.

Definition evaluate_inverted_index
    (name_with_type : IndexFieldNameAndTypePair) (iterator : IndexIterator)
    (num_rows : Z) (bitmap : Roaring) : Outcome (Status * Roaring) :=
  Returned
    (Status_NotSupported
       "Not Implemented evaluate with inverted index, please check the predicate",
     bitmap).

Definition get_ignore_threshold : double := double_zero.

(** [evaluate_and] and [evaluate_or] on a column: empty bodies, the flag array
    is left as it is. *)
Definition evaluate_and_column (column : IColumn) (sel : list Z) (size : Z)
    (flags : list bool) : Outcome (list bool) :=
  Returned flags.

Definition evaluate_or_column (column : IColumn) (sel : list Z) (size : Z)
    (flags : list bool) : Outcome (list bool) :=
  Returned flags.

Definition support_zonemap : Outcome bool := Returned true.

Definition evaluate_and_statistic
    (statistic : WrapperField * WrapperField) : Outcome bool :=
  Returned true.

Definition is_always_true
    (statistic : WrapperField * WrapperField) : Outcome bool :=
  Returned false.

Definition evaluate_del
    (statistic : WrapperField * WrapperField) : Outcome bool :=
  Returned false.

Definition evaluate_and_bloom_filter (bf : BloomFilter) : Outcome bool :=
  Returned true.

Definition evaluate_and_dict_words (dict_words : list string)
    (dict_count : Z) : Outcome bool :=
  Returned true.

Definition can_do_bloom_filter (ngram : bool) : Outcome bool :=
  Returned false.

(** The defaults whose body is [DCHECK(false) << "should not reach here"]:
    fatal where [DCHECK] is compiled in; where it is compiled out the body is
    empty, or, for [get_search_str], [return ""]. *)
Definition evaluate_vec (column : IColumn) (size : Z) (flags : list bool)
    : M (list bool) :=
  _ <- DCHECK false "should not reach here" ;;
  ret flags.

Definition evaluate_and_vec (column : IColumn) (size : Z) (flags : list bool)
    : M (list bool) :=
  _ <- DCHECK false "should not reach here" ;;
  ret flags.

Definition get_search_str : M string :=
  _ <- DCHECK false "should not reach here" ;;
  ret "".

Definition set_page_ng_bf (bf : BloomFilter) : M unit :=
  DCHECK false "should not reach here".

(** [is_runtime_filter] calls the virtual [_can_ignore]. *)
Definition is_runtime_filter (_can_ignore : ColumnPredicate → bool)
    (p : ColumnPredicate) : bool :=
  _can_ignore p.

Definition _can_ignore (p : ColumnPredicate) : bool :=
  negb (_runtime_filter_id p =? -1).

Definition _evaluate_inner (column : IColumn) (sel : list Z) (size : Z)
    : Outcome Z * list Z :=
  (Thrown (Exception_ INTERNAL_ERROR "Not Implemented _evaluate_inner"), sel).

End Base.
End Base.

(** Virtual dispatch: the override of the variant if it has one, the body of
    the base class otherwise. *)
Section Dispatch.
Context `{Collaborators} (v : Variant).

Definition evaluate_inverted_index
    (name_with_type : IndexFieldNameAndTypePair) (iterator : IndexIterator)
    (num_rows : Z) (bitmap : Roaring) : Outcome (Status * Roaring) :=
  match evaluate_inverted_index_override v with
  | Some f => Returned (f name_with_type iterator num_rows bitmap)
  | None => Base.evaluate_inverted_index name_with_type iterator num_rows bitmap
  end.

Definition get_ignore_threshold : double :=
  match get_ignore_threshold_override v with
  | Some t => t
  | None => Base.get_ignore_threshold
  end.

Definition evaluate_and_column (column : IColumn) (sel : list Z) (size : Z)
    (flags : list bool) : Outcome (list bool) :=
  match evaluate_and_column_override v with
  | Some f => Returned (f column sel size flags)
  | None => Base.evaluate_and_column column sel size flags
  end.

Definition evaluate_or_column (column : IColumn) (sel : list Z) (size : Z)
    (flags : list bool) : Outcome (list bool) :=
  match evaluate_or_column_override v with
  | Some f => Returned (f column sel size flags)
  | None => Base.evaluate_or_column column sel size flags
  end.

Definition support_zonemap : Outcome bool :=
  match support_zonemap_override v with
  | Some b => Returned b
  | None => Base.support_zonemap
  end.

Definition evaluate_and_statistic
    (statistic : WrapperField * WrapperField) : Outcome bool :=
  match evaluate_and_statistic_override v with
  | Some f => Returned (f statistic)
  | None => Base.evaluate_and_statistic statistic
  end.

Definition is_always_true
    (statistic : WrapperField * WrapperField) : Outcome bool :=
  match is_always_true_override v with
  | Some f => Returned (f statistic)
  | None => Base.is_always_true statistic
  end.

Definition evaluate_del
    (statistic : WrapperField * WrapperField) : Outcome bool :=
  match evaluate_del_override v with
  | Some f => Returned (f statistic)
  | None => Base.evaluate_del statistic
  end.

Definition evaluate_and_bloom_filter (bf : BloomFilter) : Outcome bool :=
  match evaluate_and_bloom_filter_override v with
  | Some f => Returned (f bf)
  | None => Base.evaluate_and_bloom_filter bf
  end.

Definition evaluate_and_dict_words (dict_words : list string)
    (dict_count : Z) : Outcome bool :=
  match evaluate_and_dict_words_override v with
  | Some f => Returned (f dict_words dict_count)
  | None => Base.evaluate_and_dict_words dict_words dict_count
  end.

Definition can_do_bloom_filter (ngram : bool) : Outcome bool :=
  match can_do_bloom_filter_override v with
  | Some f => Returned (f ngram)
  | None => Base.can_do_bloom_filter ngram
  end.

Definition evaluate_vec (column : IColumn) (size : Z) (flags : list bool)
    : M (list bool) :=
  match evaluate_vec_override v with
  | Some f => ret (f column size flags)
  | None => Base.evaluate_vec column size flags
  end.

Definition evaluate_and_vec (column : IColumn) (size : Z) (flags : list bool)
    : M (list bool) :=
  match evaluate_and_vec_override v with
  | Some f => ret (f column size flags)
  | None => Base.evaluate_and_vec column size flags
  end.

Definition get_search_str : M string :=
  match get_search_str_override v with
  | Some str => ret str
  | None => Base.get_search_str
  end.

Definition set_page_ng_bf (bf : BloomFilter) : M unit :=
  match set_page_ng_bf_override v with
  | Some f => f bf
  | None => Base.set_page_ng_bf bf
  end.

Definition _can_ignore (p : ColumnPredicate) : bool :=
  match _can_ignore_override v with
  | Some f => f p
  | None => Base._can_ignore p
  end.

Definition is_runtime_filter (p : ColumnPredicate) : bool :=
  match is_runtime_filter_override v with
  | Some f => f p
  | None => Base.is_runtime_filter _can_ignore p
  end.

(** The kernel a call of [_evaluate_inner] reaches. *)
Definition dispatched_kernel : Kernel :=
  match _evaluate_inner_override v with
  | Some kernel => kernel
  | None => Base._evaluate_inner
  end.

(** The call is logged, then the kernel runs on the caller's buffer. *)
Definition _evaluate_inner (column : IColumn) (size : Z) : M Z :=
  λ w,
    let w := log_call (Call_evaluate_inner size) w in
    let '(o, sel') := dispatched_kernel column (sel w) size in
    (o, set_sel sel' w).

End Dispatch.

(** The non-virtual member functions of the base class. *)
Section Members.
Context `{Collaborators} (v : Variant).

Definition always_true (p : ColumnPredicate) : bool := _always_true p.

Definition get_runtime_filter_id (p : ColumnPredicate) : Z :=
  _runtime_filter_id p.

Definition reset_judge_selectivity (p : ColumnPredicate) : ColumnPredicate :=
  let p := with_always_true false p in
  let p := with_judge_counter runtime_filter_sampling_frequency p in
  let p := with_judge_input_rows 0 p in
  with_judge_filter_rows 0 p.

(** [filter_rows] and [input_rows] are [uint64_t]; [_judge_counter] is an
    [int], tested before its decrement. *)
Definition do_judge_selectivity (filter_rows input_rows : Z)
    (p : ColumnPredicate) : ColumnPredicate :=
  let old_counter := _judge_counter p in
  let p := with_judge_counter (to_int32 (old_counter - 1)) p in
  let p := if old_counter =? 0 then reset_judge_selectivity p else p in
  if negb (_always_true p) then
    let p :=
      with_judge_filter_rows (to_uint64 (_judge_filter_rows p + filter_rows)) p in
    let p :=
      with_judge_input_rows (to_uint64 (_judge_input_rows p + input_rows)) p in
    with_always_true
      (judge_selectivity (get_ignore_threshold v)
         (_judge_filter_rows p) (_judge_input_rows p) (_always_true p)) p
  else p.

(** Modelled from the spec: [COUNTER_UPDATE] and [RuntimeProfile::Counter]
    are declared in [util/runtime_profile.h], which is not among the embedded
    sources; the spec has the counters "updated via an atomic add".  The
    counter the shared pointer leads to is increased by [value] (an [int64_t]
    sum).  A null pointer, or one that leads to no counter, cannot be
    dereferenced. *)
Definition COUNTER_UPDATE (c : shared_ptr) (value : Z) : M unit :=
  λ w,
    match c with
    | None => (Undefined, w)
    | Some l =>
        match counters w !! l with
        | None => (Undefined, w)
        | Some old => (Returned tt,
                       set_counters (<[l := to_int64 (old + value)]> (counters w)) w)
        end
    end.

(** [filter_rows] and [input_rows] are [int64_t]. *)
Definition update_filter_info (filter_rows input_rows : Z) : M unit :=
  _ <- modify (log_call (Call_update_filter_info filter_rows input_rows)) ;;
  p <- get_this ;;
  _ <- COUNTER_UPDATE (_predicate_input_rows_counter p) input_rows ;;
  COUNTER_UPDATE (_predicate_filtered_rows_counter p) filter_rows.

(** The call of [do_judge_selectivity] on the object, logged. *)
Definition call_do_judge_selectivity (filter_rows input_rows : Z) : M unit :=
  _ <- modify (log_call (Call_do_judge_selectivity filter_rows input_rows)) ;;
  modify_this (do_judge_selectivity filter_rows input_rows).

(** The short-circuit [evaluate(column, sel, size)]; the buffer [sel] is the
    one of the world.  [size - new_size] is computed in [int] (no wrap-around
    for two [uint16_t]) and converted to the parameter types of the callees. *)
Definition evaluate (column : IColumn) (size : Z) : M Z :=
  p <- get_this ;;
  if always_true p then ret size
  else
    new_size <- _evaluate_inner v column size ;;
    p <- get_this ;;
    _ <- when (_can_ignore v p)
           (call_do_judge_selectivity
              (to_uint64 (size - new_size)) (to_uint64 size)) ;;
    _ <- update_filter_info (to_int64 (size - new_size)) (to_int64 size) ;;
    ret new_size.

(** The object after the sampler step of an [evaluate] whose kernel returned
    [new_size]. *)
Definition sampled (size new_size : Z) (p : ColumnPredicate) : ColumnPredicate :=
  if _can_ignore v p
  then do_judge_selectivity (to_uint64 (size - new_size)) (to_uint64 size) p
  else p.

(** The calls an [evaluate] whose kernel returned [new_size] logs, in order. *)
Definition calls_of_evaluate (size new_size : Z) (p : ColumnPredicate)
    : list Call :=
  Call_evaluate_inner size
  :: (if _can_ignore v p
      then [Call_do_judge_selectivity
              (to_uint64 (size - new_size)) (to_uint64 size)]
      else [])
  ++ [Call_update_filter_info (to_int64 (size - new_size)) (to_int64 size)].

Definition is_not_null (c : shared_ptr) : bool :=
  match c with Some _ => true | None => false end.

Definition attach_profile_counter (filter_id : Z)
    (predicate_filtered_rows_counter predicate_input_rows_counter : shared_ptr)
    : M unit :=
  _ <- modify_this (with_runtime_filter_id filter_id) ;;
  _ <- DCHECK (is_not_null predicate_filtered_rows_counter)
         "predicate_filtered_rows_counter != nullptr" ;;
  _ <- DCHECK (is_not_null predicate_input_rows_counter)
         "predicate_input_rows_counter != nullptr" ;;
  _ <- when (is_not_null predicate_filtered_rows_counter)
         (modify_this (with_predicate_filtered_rows_counter
                         predicate_filtered_rows_counter)) ;;
  when (is_not_null predicate_input_rows_counter)
    (modify_this (with_predicate_input_rows_counter
                    predicate_input_rows_counter)).

(** [std::make_shared<RuntimeProfile::Counter>(TUnit::UNIT, 0)]: a new counter
    of value 0 at an address not in use. *)
Definition make_shared_Counter (heap : gmap positive Z)
    : shared_ptr * gmap positive Z :=
  let l := fresh (dom heap) in (Some l, <[l := 0]> heap).

(** The constructor: the member initialisers in declaration order (the
    defaults of [_runtime_filter_id], of the sampler fields and of the two
    counters), then the body, [reset_judge_selectivity()]. *)
Definition ColumnPredicate_new (column_id : Z) (opposite : bool)
    (heap : gmap positive Z) : ColumnPredicate * gmap positive Z :=
  let '(filtered, heap) := make_shared_Counter heap in
  let '(input, heap) := make_shared_Counter heap in
  (reset_judge_selectivity
     {| _column_id := column_id; _opposite := opposite;
        _runtime_filter_id := -1;
        _judge_counter := 0;
        _judge_input_rows := 0;
        _judge_filter_rows := 0;
        _always_true := false;
        _predicate_filtered_rows_counter := filtered;
        _predicate_input_rows_counter := input |},
   heap).

(** A sequence of [evaluate] calls, each on its own column, buffer contents
    and size; a call that throws is survivable (the caller may catch), the
    object keeps the state the call left. *)
Fixpoint evaluate_all (batches : list (IColumn * list Z * Z)) (w : World)
    : World :=
  match batches with
  | [] => w
  | (column, buffer, size) :: rest =>
      evaluate_all rest (snd (evaluate column size (set_sel buffer w)))
  end.

End Members.

(** A world around a freshly constructed predicate. *)
Definition new_world `{Collaborators} (column_id : Z) (opposite : bool)
    (heap : gmap positive Z) (buffer : list Z) : World :=
  let '(p, heap) := ColumnPredicate_new column_id opposite heap in
  {| this := p; counters := heap; sel := buffer; calls := [] |}.

(** A shared pointer that is not null and leads to a counter. *)
Definition counter_live (heap : gmap positive Z) (c : shared_ptr) : bool :=
  match c with
  | Some l => match heap !! l with Some _ => true | None => false end
  | None => false
  end.

(** Both counters of the object can be updated. *)
Definition counters_attached (w : World) : bool :=
  counter_live (counters w) (_predicate_filtered_rows_counter (this w)) &&
  counter_live (counters w) (_predicate_input_rows_counter (this w)).

(** The heap after [COUNTER_UPDATE(c, value)] went through. *)
Definition counter_add (c : shared_ptr) (value : Z) (heap : gmap positive Z)
    : gmap positive Z :=
  match c with
  | Some l =>
      match heap !! l with
      | Some old => <[l := to_int64 (old + value)]> heap
      | None => heap
      end
  | None => heap
  end.

(** A kernel written with the macro, as the variants do: [new_size] starts at
    0, the macro runs on the column's size and the buffer, [new_size] is
    returned.  The two row tests read the column. *)
Definition selector_kernel `{Collaborators} (is_nullable : bool)
    (EVALUATE_IMPL_WITH_NULL_MAP EVALUATE_IMPL_WITHOUT_NULL_MAP
       : IColumn → Z → bool) : Kernel :=
  λ column sel size,
    match EVALUATE_BY_SELECTOR is_nullable
            (EVALUATE_IMPL_WITH_NULL_MAP column)
            (EVALUATE_IMPL_WITHOUT_NULL_MAP column)
            (IColumn_size column) sel size 0 with
    | Some (sel', new_size) => (Returned new_size, sel')
    | None => (Undefined, sel)
    end.

(** ** The DecimalV2 multiply kernel: [MultiplyImpl::vector_vector] *)

(** What the kernel takes from outside the embedded sources:
    [common::mul_overflow] on two [int128_t] (whether it reports an overflow,
    and the value it leaves in its result reference),
    [DecimalV2Value::ONE_BILLION], and the raw values of
    [DecimalV2Value::get_max_decimal()] and [get_min_decimal()].  A
    [DecimalV2Value] is its raw [int128_t]. *)
Class DecimalV2 : Type := {
  mul_overflow : Z → Z → bool * Z;
  ONE_BILLION : Z;
  max_decimal : Z;
  min_decimal : Z
}.

Module MultiplyImpl.
Section MultiplyImpl.
Context `{DecimalV2}.

(** The sign the first loop stores in [sgn[i]] (an [int8_t]). *)
Definition sign (a b : Z) : Z :=
  if ((a >? 0) && (b >? 0)) || ((a <? 0) && (b <? 0)) then 1
  else if (a =? 0) || (b =? 0) then 0
  else -1.

(** The first loop: [sgn[i]] for [i] from the given index on.  Reading an
    operand array past its end is undefined ([None]). *)
Fixpoint sgn_loop (a b : list Z) (remaining i : nat) (sgn : list Z)
    : option (list Z) :=
  match remaining with
  | O => Some sgn
  | S remaining' =>
      match a !! i, b !! i with
      | Some x, Some y =>
          sgn_loop a b remaining' (S i) (<[i := sign x y]> sgn)
      | _, _ => None
      end
  end.

(** [(product - sgn) / ONE_BILLION + sgn] in [int128_t]; [/] truncates. *)
Definition rescale (product sgn : Z) : Z :=
  to_int128 (to_int128 (to_int128 (product - sgn) `quot` ONE_BILLION) + sgn).

(** The second loop, from index [i] on; [c] is the output array. *)
Fixpoint multiply_loop (check_overflow : bool) (a b sgn : list Z)
    (remaining i : nat) (c : list Z) : Outcome unit * list Z :=
  match remaining with
  | O => (Returned tt, c)
  | S remaining' =>
      match a !! i, b !! i, sgn !! i with
      | Some x, Some y, Some s =>
          if (i <? length c)%nat then
            if check_overflow then
              let '(overflowed, i128_mul_result) := mul_overflow x y in
              if overflowed then
                (Thrown (DecimalBinaryOpOverflow x "multiply" y
                           i128_mul_result "decimalv2"), c)
              else
                let ci := rescale i128_mul_result s in
                let c := <[i := ci]> c in
                if (ci >? max_decimal) || (ci <? min_decimal) then
                  (Thrown (DecimalBinaryOpOverflow x "multiply" y
                             i128_mul_result "decimalv2"), c)
                else
                  multiply_loop check_overflow a b sgn remaining' (S i) c
            else
              let c := <[i := rescale (to_int128 (x * y)) s]> c in
              multiply_loop check_overflow a b sgn remaining' (S i) c
          else (Undefined, c)
      | _, _, _ => (Undefined, c)
      end
  end.

(** [vector_vector<check_overflow>(a, b, c, size)]: the array [sgn] of [size]
    entries is allocated, filled by the first loop and used by the second. *)
Definition vector_vector (check_overflow : bool) (a b c : list Z) (size : nat)
    : Outcome unit * list Z :=
  match sgn_loop a b size 0 (replicate size 0) with
  | Some sgn => multiply_loop check_overflow a b sgn size 0 c
  | None => (Undefined, c)
  end.

(** What the checked kernel stores for a pair of operands, and whether the
    pair makes it throw: [mul_overflow] reports an overflow, or the rescaled
    result lies outside [min_decimal .. max_decimal]. *)
Definition stored (x y : Z) : Z :=
  rescale (snd (mul_overflow x y)) (sign x y).

Definition overflows (x y : Z) : bool :=
  fst (mul_overflow x y) ||
  (stored x y >? max_decimal) || (stored x y <? min_decimal).

End MultiplyImpl.
End MultiplyImpl.

(** Modelled from the spec: [common::mul_overflow] is declared in
    [vec/common/arithmetic_overflow.h], which is not among the embedded
    sources.  The spec has the multiplication "detect overflow by checking
    the mathematical product": the report is whether the product of the two
    integers leaves the range of [int128_t], the value left in the result is
    the product wrapped to 128 bits. *)
Definition mul_overflow_model (x y : Z) : bool * Z :=
  (negb ((INT128_MIN <=? x * y) && (x * y <=? INT128_MAX)), to_int128 (x * y)).

(** The spec's words for an overflowing multiplication, "checking the
    mathematical product against the type's representable min/max before
    truncation/rounding": the product of the two raw values leaves
    [int128_t], or it leaves, before it is divided by the scale, the range
    [min_decimal .. max_decimal] of the type taken at that scale. *)
Definition spec_multiply_overflows `{DecimalV2} (x y : Z) : bool :=
  negb ((INT128_MIN <=? x * y) && (x * y <=? INT128_MAX))
  || (x * y <? min_decimal * ONE_BILLION)
  || (max_decimal * ONE_BILLION <? x * y).

(** [(product - sgn) / ONE_BILLION + sgn] computed in the integers on the
    mathematical product and its sign: the result without any 128-bit
    wrap-around. *)
Definition exact_result `{DecimalV2} (x y : Z) : Z :=
  (x * y - Z.sgn (x * y)) `quot` ONE_BILLION + Z.sgn (x * y).

(** DecimalV2 with that [mul_overflow], a scale of 9 digits and the range of
    27 digits. *)
Definition example_decimalv2 : DecimalV2 :=
  {| mul_overflow := mul_overflow_model;
     ONE_BILLION := 1000000000;
     max_decimal := 999999999999999999999999999;
     min_decimal := -999999999999999999999999999 |}.

(** ** A concrete instance, for the examples *)

(** Modelled from the spec: [VRuntimeFilterWrapper::judge_selectivity] is
    declared in [vec/exprs/vruntimefilter_wrapper.h], which is not among the
    embedded sources.  The spec has it "compare cumulative filtered/input
    ratio against the predicate's own ignore-threshold" and answer always-true
    when "the ratio is negligible".  Exact rationals stand for the [double]s;
    with no input rows there is no ratio and the answer is [false]. *)
Definition judge_selectivity_model (ignore_threshold : Q)
    (filter_rows input_rows : Z) (always_true : bool) : bool :=
  if input_rows <=? 0 then false
  else negb (Qle_bool ignore_threshold (filter_rows # Z.to_pos input_rows)).

(** Columns are lists of integers, the sampling window is 2 calls long, and
    [DCHECK] is compiled out. *)
Definition example_collaborators : Collaborators :=
  {| IColumn := list Z;
     IColumn_size := λ column, Z.of_nat (length column);
     WrapperField := Z;
     BloomFilter := list Z;
     BitmapIndexIterator := unit;
     IndexIterator := unit;
     IndexFieldNameAndTypePair := string;
     double := Q;
     double_zero := 0%Q;
     runtime_filter_sampling_frequency := 2;
     judge_selectivity := judge_selectivity_model;
     DCHECK_IS_ON := false |}.

(** The same with [DCHECK] compiled in. *)
Definition example_collaborators_debug : Collaborators :=
  {| IColumn := list Z;
     IColumn_size := λ column, Z.of_nat (length column);
     WrapperField := Z;
     BloomFilter := list Z;
     BitmapIndexIterator := unit;
     IndexIterator := unit;
     IndexFieldNameAndTypePair := string;
     double := Q;
     double_zero := 0%Q;
     runtime_filter_sampling_frequency := 2;
     judge_selectivity := judge_selectivity_model;
     DCHECK_IS_ON := true |}.

(** The row test of an equality predicate on [value]: the row holds [value],
    negated when [opposite]. *)
Definition example_equals (value : Z) (opposite : bool)
    (column : list Z) (idx : Z) : bool :=
  xorb opposite (bool_decide (column !! Z.to_nat idx = Some value)).

(** An equality predicate whose kernel is written with the macro, over
    columns without nulls; it overrides nothing else but the ignore
    threshold. *)
Definition example_variant (value : Z) (opposite : bool) (threshold : Q)
    : @Variant example_collaborators :=
  {| type := PredicateType.EQ;
     evaluate_inverted_index_override := None;
     get_ignore_threshold_override :=
       Some (threshold : @double example_collaborators);
     evaluate_and_column_override := None;
     evaluate_or_column_override := None;
     support_zonemap_override := None;
     evaluate_and_statistic_override := None;
     is_always_true_override := None;
     evaluate_del_override := None;
     evaluate_and_bloom_filter_override := None;
     evaluate_and_dict_words_override := None;
     can_do_bloom_filter_override := None;
     evaluate_vec_override := None;
     evaluate_and_vec_override := None;
     get_search_str_override := None;
     set_page_ng_bf_override := None;
     is_runtime_filter_override := None;
     _can_ignore_override := None;
     _evaluate_inner_override :=
       Some (@selector_kernel example_collaborators false
               (λ _ _, false) (example_equals value opposite)) |}.

(** A variant that overrides nothing. *)
Definition plain_variant `{Collaborators} (kind : PredicateType) : Variant :=
  {| type := kind;
     evaluate_inverted_index_override := None;
     get_ignore_threshold_override := None;
     evaluate_and_column_override := None;
     evaluate_or_column_override := None;
     support_zonemap_override := None;
     evaluate_and_statistic_override := None;
     is_always_true_override := None;
     evaluate_del_override := None;
     evaluate_and_bloom_filter_override := None;
     evaluate_and_dict_words_override := None;
     can_do_bloom_filter_override := None;
     evaluate_vec_override := None;
     evaluate_and_vec_override := None;
     get_search_str_override := None;
     set_page_ng_bf_override := None;
     is_runtime_filter_override := None;
     _can_ignore_override := None;
     _evaluate_inner_override := None |}.

(** A freshly constructed predicate on column 0 in an empty heap, with the
    buffer [[0; 1; 2; 3]]. *)
Definition example_world : World :=
  @new_world example_collaborators 0 false ∅ [0; 1; 2; 3].

(** The same after [attach_profile_counter(7, c1, c2)] with the two counters
    the constructor made. *)
Definition example_runtime_filter_world : World :=
  snd (@attach_profile_counter example_collaborators 7
         (Some 1%positive) (Some 2%positive) example_world).

(** The runtime-filter predicate with ignore threshold 1/2 after a batch in
    which no row was filtered: the sampler has set the flag. *)
Definition example_always_true_world : World :=
  snd (@evaluate example_collaborators (example_variant 5 false (1 # 2))
         [5; 5; 5; 5] 4 example_runtime_filter_world).

(** ** Runs of several calls *)

(** [do_judge_selectivity] called once per pair [(filter_rows, input_rows)],
    in order. *)
Definition do_judge_selectivity_all `{Collaborators} (v : Variant)
    (feeds : list (Z * Z)) (p : ColumnPredicate) : ColumnPredicate :=
  fold_left (λ p feed, do_judge_selectivity v (fst feed) (snd feed) p) feeds p.

(** Two calls of [attach_profile_counter] in a row; the second is made only
    when the first returned. *)
Definition attach_twice `{Collaborators}
    (first second : Z * shared_ptr * shared_ptr) : M unit :=
  _ <- attach_profile_counter (fst (fst first)) (snd (fst first)) (snd first) ;;
  attach_profile_counter (fst (fst second)) (snd (fst second)) (snd second).

(** The fields of the object that [evaluate] never assigns: the column, the
    negation flag, the runtime-filter identifier and the two counters. *)
Definition same_identity (p q : ColumnPredicate) : Prop :=
  _column_id p = _column_id q ∧ _opposite p = _opposite q ∧
  _runtime_filter_id p = _runtime_filter_id q ∧
  _predicate_filtered_rows_counter p = _predicate_filtered_rows_counter q ∧
  _predicate_input_rows_counter p = _predicate_input_rows_counter q.

(** The input rows a run of feeds adds up to. *)
Definition total_input_rows (feeds : list (Z * Z)) : Z :=
  foldr (λ feed acc, snd feed + acc) 0 feeds.

(** The first [size] entries of the buffer are rows of the column, in
    increasing order.  This is asked on the sparse path only: the dense path
    does not read the buffer. *)
Definition selects_rows `{Collaborators} (column : IColumn) (buffer : list Z)
    (size : Z) : Prop :=
  IColumn_size column ≠ size →
  strictly_increasing (take (Z.to_nat size) buffer) ∧
  Forall (λ x, 0 ≤ x < IColumn_size column) (take (Z.to_nat size) buffer).

(** What a recorded decoding stands for in a result type. *)
Definition decode_into {ResultType} `{ZoneMapResult ResultType} (d : Decoded)
    : ResultType :=
  match d with
  | Default_constructed => default_constructed
  | From_olap_decimal integer fraction =>
      from_olap_decimal default_constructed integer fraction
  | From_olap_date date => from_olap_date default_constructed date
  | From_olap_datetime datetime =>
      from_olap_datetime default_constructed datetime
  | Reinterpreted object => from_object_representation object
  end.

(* ===================================================================== *)
(** * Part II: theorems                                                   *)
(* ===================================================================== *)

(** ** Predicate taxonomy *)

Lemma PredicateType_eqb_eq (a b : PredicateType) :
  (a == b)%bool = true ↔ a = b.
Proof.
  unfold PredicateType.eqb. rewrite Z.eqb_eq. split; [|by intros ->].
  destruct a, b; simpl; intros H; first [reflexivity | discriminate H].
Qed.

Lemma PredicateType_all_complete (type : PredicateType) :
  type ∈ PredicateType.all.
Proof.
  unfold PredicateType.all. rewrite !elem_of_cons.
  destruct type; intuition congruence.
Qed.

(** C9. Each classification function of [PredicateTypeTraits] is a function of
    the tag alone, and holds exactly on its members: [is_range] on LT, LE, GT,
    GE; [is_list] on IN_LIST, NOT_IN_LIST; [is_comparison] on EQ, NE, LT, LE,
    GT, GE; [is_bloom_filter] on BF; [is_equal_or_list] on EQ, IN_LIST. *)
Theorem classification_exact (type : PredicateType) :
  (PredicateTypeTraits.is_range type = true ↔
     type ∈ [PredicateType.LT; PredicateType.LE;
             PredicateType.GT; PredicateType.GE]) ∧
  (PredicateTypeTraits.is_list type = true ↔
     type ∈ [PredicateType.IN_LIST; PredicateType.NOT_IN_LIST]) ∧
  (PredicateTypeTraits.is_comparison type = true ↔
     type ∈ [PredicateType.EQ; PredicateType.NE; PredicateType.LT;
             PredicateType.LE; PredicateType.GT; PredicateType.GE]) ∧
  (PredicateTypeTraits.is_bloom_filter type = true ↔
     type = PredicateType.BF) ∧
  (PredicateTypeTraits.is_equal_or_list type = true ↔
     type ∈ [PredicateType.EQ; PredicateType.IN_LIST]).
Proof.
  repeat split; destruct type; cbn;
    rewrite ?elem_of_cons, ?elem_of_nil; intuition congruence.
Qed.

(** ** Machine integers *)

Lemma to_uint16_id (x : Z) : 0 ≤ x ≤ UINT16_MAX → to_uint16 x = x.
Proof.
  unfold to_uint16, wrap_unsigned, UINT16_MAX. intros Hx.
  apply Z.mod_small. change (2 ^ 16) with 65536. lia.
Qed.

Lemma to_uint64_id (x : Z) : 0 ≤ x < 2 ^ 64 → to_uint64 x = x.
Proof. intros Hx. unfold to_uint64, wrap_unsigned. by apply Z.mod_small. Qed.

Lemma wrap_signed_id (bits x : Z) :
  0 < bits → - 2 ^ (bits - 1) ≤ x < 2 ^ (bits - 1) → wrap_signed bits x = x.
Proof.
  intros Hb Hx. unfold wrap_signed.
  assert (2 ^ bits = 2 * 2 ^ (bits - 1)) as ->.
  { rewrite <- Z.pow_succ_r by lia. f_equal. lia. }
  rewrite Z.mod_small; lia.
Qed.

Lemma to_int64_id (x : Z) : - 2 ^ 63 ≤ x < 2 ^ 63 → to_int64 x = x.
Proof. intros Hx. unfold to_int64. apply wrap_signed_id; [lia | exact Hx]. Qed.

Lemma to_int128_id (x : Z) : in_int128 x → to_int128 x = x.
Proof.
  unfold in_int128, INT128_MIN, INT128_MAX. intros Hx.
  unfold to_int128. apply wrap_signed_id; [lia | ].
  change (128 - 1) with 127. lia.
Qed.

(** ** Selection-vector compaction *)

Section Selector.
Context (is_nullable : bool) (WITH WITHOUT : Z → bool).

Let test : Z → bool := selector_test is_nullable WITH WITHOUT.

(** The loop invariant, for any tail [xs] of the walked selection: [i] rows
    are done, [k ≤ i] of them were kept and sit in front of the buffer, and
    the rows still to be read are where the loop will look for them. *)
Lemma EVALUATE_BY_SELECTOR_loop_spec (dense : bool) (xs : list Z) :
  ∀ (i k : nat) (cur : list Z),
    (k ≤ i)%nat →
    Z.of_nat (i + length xs) ≤ UINT16_MAX →
    (i + length xs ≤ length cur)%nat →
    (∀ (j : nat) (x : Z), xs !! j = Some x →
       if dense then x = Z.of_nat (i + j) else cur !! (i + j)%nat = Some x) →
    EVALUATE_BY_SELECTOR_loop is_nullable WITH WITHOUT dense (length xs)
      (Z.of_nat i) cur (Z.of_nat k)
    = Some (take k cur ++ List.filter test xs
              ++ drop (k + length (List.filter test xs)) cur,
            Z.of_nat (k + length (List.filter test xs))).
Proof.
  induction xs as [|x xs IH]; intros i k cur Hk Hmax Hlen Hread.
  - simpl. rewrite Nat.add_0_r, take_drop. reflexivity.
  - simpl in Hmax, Hlen. unfold UINT16_MAX in *.
    assert (Hidx: (if dense then Some (Z.of_nat i)
                    else cur !! Z.to_nat (Z.of_nat i)) = Some x).
    { specialize (Hread 0%nat x eq_refl). rewrite Nat.add_0_r in Hread.
      destruct dense; [by subst | by rewrite Nat2Z.id]. }
    cbn [length EVALUATE_BY_SELECTOR_loop]. rewrite Hidx.
    assert (Hnext : to_uint16 (Z.of_nat i + 1) = Z.of_nat (S i)).
    { rewrite to_uint16_id; unfold UINT16_MAX; lia. }
    rewrite Hnext.
    assert (Hkeep : (if is_nullable then WITH x else WITHOUT x) = test x).
    { unfold test, selector_test. by destruct is_nullable. }
    rewrite Hkeep. cbn [List.filter].
    destruct (test x) eqn:Htest.
    + rewrite Nat2Z.id.
      assert (Hin : (k <? length cur)%nat = true) by (apply Nat.ltb_lt; lia).
      rewrite Hin.
      assert (Hk1 : to_uint16 (Z.of_nat k + 1) = Z.of_nat (S k)).
      { rewrite to_uint16_id; unfold UINT16_MAX; lia. }
      rewrite Hk1.
      rewrite (IH (S i) (S k) (<[k:=x]> cur)).
      * f_equal. cbn [length]. f_equal; [|f_equal; lia].
        rewrite (take_S_r _ k x) by (apply list_lookup_insert_eq; lia).
        rewrite take_insert_ge by lia. rewrite <- app_assoc. cbn [app].
        rewrite drop_insert_lt by lia.
        by replace (S k + length (List.filter test xs))%nat
          with (k + S (length (List.filter test xs)))%nat by lia.
      * lia.
      * lia.
      * rewrite length_insert. lia.
      * intros j y Hy. specialize (Hread (S j) y Hy).
        destruct dense.
        -- subst y. f_equal. lia.
        -- rewrite list_lookup_insert_ne by lia.
           rewrite <- Hread. f_equal. lia.
    + rewrite (IH (S i) k cur).
      * reflexivity.
      * lia.
      * lia.
      * lia.
      * intros j y Hy. specialize (Hread (S j) y Hy).
        destruct dense.
        -- subst y. f_equal. lia.
        -- rewrite <- Hread. f_equal. lia.
Qed.

Lemma length_walked_selection (pred_col_size : Z) (buffer : list Z) (size : Z) :
  (Z.to_nat size ≤ length buffer)%nat →
  length (walked_selection pred_col_size buffer size) = Z.to_nat size.
Proof.
  intros Hlen. unfold walked_selection, identity_selection.
  destruct (pred_col_size =? size).
  - apply length_seqZ.
  - by apply length_take_le.
Qed.

(** The macro on a buffer of at least [size] entries: the survivors of the
    walked selection, in order, are written to the front of the buffer, the
    rest of the buffer is as it was, and [new_size] counts the survivors. *)
Lemma EVALUATE_BY_SELECTOR_spec (pred_col_size : Z) (buffer : list Z) (size : Z) :
  0 ≤ size ≤ UINT16_MAX →
  (Z.to_nat size ≤ length buffer)%nat →
  EVALUATE_BY_SELECTOR is_nullable WITH WITHOUT pred_col_size buffer size 0
  = let survivors :=
      List.filter test (walked_selection pred_col_size buffer size) in
    Some (survivors ++ drop (length survivors) buffer,
          Z.of_nat (length survivors)).
Proof.
  intros Hsize Hlen. unfold EVALUATE_BY_SELECTOR.
  pose proof (length_walked_selection pred_col_size buffer size Hlen) as Hw.
  pose proof (EVALUATE_BY_SELECTOR_loop_spec (pred_col_size =? size)
                (walked_selection pred_col_size buffer size) 0 0 buffer)
    as Hloop.
  rewrite Hw in Hloop. apply Hloop; clear Hloop.
  - lia.
  - unfold UINT16_MAX in *. lia.
  - lia.
  - intros j x Hx. unfold walked_selection, identity_selection in Hx.
    destruct (pred_col_size =? size).
    + apply lookup_seqZ in Hx. cbn. lia.
    + cbn. pose proof (lookup_lt_Some _ _ _ Hx) as Hj.
      rewrite lookup_take_lt in Hx; [exact Hx|].
      rewrite length_take in Hj. lia.
Qed.

End Selector.

(** Filtering keeps a subsequence. *)
Lemma filter_sublist {A} (f : A → bool) (l : list A) :
  List.filter f l `sublist_of` l.
Proof.
  induction l as [|x l IH]; cbn.
  - constructor.
  - destruct (f x); by constructor.
Qed.

Lemma strictly_increasing_cons (x : Z) (l : list Z) :
  strictly_increasing (x :: l) ↔
  Forall (λ y, x < y) l ∧ strictly_increasing l.
Proof.
  unfold strictly_increasing. split.
  - intros H. split.
    + apply Forall_lookup. intros j y Hy.
      apply (H 0%nat (S j) x y); [lia | done | done].
    + intros i j a b Hij Ha Hb. apply (H (S i) (S j) a b); [lia | done | done].
  - intros [Hall H] i j a b Hij Ha Hb.
    destruct j as [|j]; [lia|]. cbn in Hb.
    destruct i as [|i]; cbn in Ha.
    + injection Ha as <-. by apply (Forall_lookup_1 _ _ _ _ Hall Hb).
    + apply (H i j a b); [lia | done | done].
Qed.

Lemma strictly_increasing_nil : strictly_increasing [].
Proof. intros i j x y _ Hx. by rewrite lookup_nil in Hx. Qed.

(** A subsequence of a strictly increasing list is strictly increasing. *)
Lemma strictly_increasing_sublist (l1 l2 : list Z) :
  l1 `sublist_of` l2 → strictly_increasing l2 → strictly_increasing l1.
Proof.
  induction 1 as [|x l1 l2 Hsub IH|x l1 l2 Hsub IH]; intros Hinc.
  - exact strictly_increasing_nil.
  - apply strictly_increasing_cons in Hinc as [Hall Hinc].
    apply strictly_increasing_cons. split; [|by apply IH].
    apply Forall_forall. intros y Hy.
    rewrite Forall_forall in Hall. apply Hall.
    by apply (elem_of_sublist l1 l2).
  - apply strictly_increasing_cons in Hinc as [_ Hinc]. by apply IH.
Qed.

Lemma identity_selection_increasing (size : Z) :
  strictly_increasing (identity_selection size).
Proof.
  intros i j x y Hij Hx Hy. unfold identity_selection in *.
  apply lookup_seqZ in Hx, Hy. lia.
Qed.

(** The walked selection is strictly increasing: always on the dense path,
    and on the sparse path when the buffer is. *)
Lemma walked_selection_increasing (pred_col_size : Z) (buffer : list Z)
    (size : Z) :
  (pred_col_size ≠ size → strictly_increasing buffer) →
  strictly_increasing (walked_selection pred_col_size buffer size).
Proof.
  intros Hinc. unfold walked_selection.
  destruct (Z.eqb_spec pred_col_size size) as [Heq|Hne].
  - apply identity_selection_increasing.
  - apply (strictly_increasing_sublist _ buffer); [apply sublist_take | auto].
Qed.

(** A strictly increasing buffer of [size] valid row numbers of a column of
    [size] rows is the identity selection. *)
Lemma increasing_valid_is_identity (buffer : list Z) (size : Z) :
  strictly_increasing buffer →
  length buffer = Z.to_nat size →
  Forall (λ x, 0 ≤ x < size) buffer →
  buffer = identity_selection size.
Proof.
  intros Hinc Hlen Hvalid.
  assert (Hlow : ∀ (i : nat) x, buffer !! i = Some x → Z.of_nat i ≤ x).
  { induction i as [|i IH]; intros x Hx.
    - pose proof (Forall_lookup_1 _ _ _ _ Hvalid Hx) as Hv. cbn in Hv. lia.
    - destruct (lookup_lt_is_Some_2 buffer i) as [y Hy].
      { apply lookup_lt_Some in Hx. lia. }
      pose proof (IH y Hy). pose proof (Hinc i (S i) y x ltac:(lia) Hy Hx). lia. }
  assert (Hup : ∀ (k i : nat) x, (i + k + 1 = length buffer)%nat →
                                 buffer !! i = Some x → x ≤ Z.of_nat i).
  { induction k as [|k IH]; intros i x Hik Hx.
    - pose proof (Forall_lookup_1 _ _ _ _ Hvalid Hx) as Hv. cbn in Hv. lia.
    - destruct (lookup_lt_is_Some_2 buffer (S i)) as [y Hy]; [lia|].
      pose proof (IH (S i) y ltac:(lia) Hy).
      pose proof (Hinc i (S i) x y ltac:(lia) Hx Hy). lia. }
  apply list_eq. intros i. unfold identity_selection.
  destruct (decide (i < length buffer)%nat) as [Hi|Hi].
  - destruct (lookup_lt_is_Some_2 buffer i Hi) as [x Hx]. rewrite Hx.
    pose proof (Hlow i x Hx).
    pose proof (Hup (length buffer - i - 1)%nat i x ltac:(lia) Hx).
    symmetry. apply lookup_seqZ. lia.
  - rewrite lookup_ge_None_2 by lia.
    symmetry. apply lookup_seqZ_ge. lia.
Qed.

(** ** The short-circuit [evaluate] *)

Section Evaluate.
Context `{Collaborators} (v : Variant).

Lemma _evaluate_inner_run (column : IColumn) (size : Z) (w : World) :
  _evaluate_inner v column size w
  = (fst (dispatched_kernel v column (sel w) size),
     set_sel (snd (dispatched_kernel v column (sel w) size))
       (log_call (Call_evaluate_inner size) w)).
Proof.
  unfold _evaluate_inner. cbn.
  by destruct (dispatched_kernel v column (sel w) size).
Qed.

Lemma bind_returned {A B} (m : M A) (f : A → M B) (w w' : World) (a : A) :
  m w = (Returned a, w') → bind m f w = f a w'.
Proof. intros Hm. unfold bind. by rewrite Hm. Qed.

Lemma counter_live_add (c c' : shared_ptr) (value : Z) (heap : gmap positive Z) :
  counter_live heap c = true →
  counter_live (counter_add c' value heap) c = true.
Proof.
  unfold counter_live, counter_add. destruct c as [l|]; [|done].
  destruct c' as [l'|]; [|done].
  destruct (heap !! l') as [old|] eqn:Hl'; [|done].
  destruct (heap !! l) as [x|] eqn:Hl; [|done]. intros _.
  destruct (decide (l' = l)) as [->|Hne].
  - by rewrite lookup_insert_eq.
  - by rewrite lookup_insert_ne, Hl.
Qed.

Lemma COUNTER_UPDATE_live (c : shared_ptr) (value : Z) (w : World) :
  counter_live (counters w) c = true →
  COUNTER_UPDATE c value w
  = (Returned tt, set_counters (counter_add c value (counters w)) w).
Proof.
  unfold counter_live, COUNTER_UPDATE, counter_add.
  destruct c as [l|]; [|done]. by destruct (counters w !! l).
Qed.

Lemma update_filter_info_attached (filter_rows input_rows : Z) (w : World) :
  counters_attached w = true →
  update_filter_info filter_rows input_rows w
  = (Returned tt,
     {| this := this w;
        counters :=
          counter_add (_predicate_filtered_rows_counter (this w)) filter_rows
            (counter_add (_predicate_input_rows_counter (this w)) input_rows
               (counters w));
        sel := sel w;
        calls := calls w ++ [Call_update_filter_info filter_rows input_rows] |}).
Proof.
  unfold counters_attached. intros [Hf Hi]%andb_true_iff.
  unfold update_filter_info, bind, modify, get_this. cbn.
  rewrite COUNTER_UPDATE_live by exact Hi. cbn.
  rewrite COUNTER_UPDATE_live by (cbn; by apply counter_live_add).
  reflexivity.
Qed.

(** The sampler touches neither the identity of the predicate nor its
    counter pointers. *)
Lemma do_judge_selectivity_frame (filter_rows input_rows : Z)
    (p : ColumnPredicate) :
  let p' := do_judge_selectivity v filter_rows input_rows p in
  _column_id p' = _column_id p ∧ _opposite p' = _opposite p ∧
  _runtime_filter_id p' = _runtime_filter_id p ∧
  _predicate_filtered_rows_counter p' = _predicate_filtered_rows_counter p ∧
  _predicate_input_rows_counter p' = _predicate_input_rows_counter p.
Proof.
  unfold do_judge_selectivity, reset_judge_selectivity.
  destruct (_judge_counter p =? 0); cbn;
    destruct (_always_true p); cbn; auto.
Qed.

(** [evaluate] on a predicate that is always true: nothing happens. *)
Lemma evaluate_always_true (column : IColumn) (size : Z) (w : World) :
  always_true (this w) = true →
  evaluate v column size w = (Returned size, w).
Proof.
  intros Hat. unfold evaluate, bind, get_this, ret. cbn. by rewrite Hat.
Qed.

(** [evaluate] when the kernel returns: the sampler step if the predicate can
    be ignored, then the counters, then the kernel's count. *)
Lemma evaluate_kernel_returns (column : IColumn) (size : Z) (w : World)
    (new_size : Z) (buffer' : list Z) :
  always_true (this w) = false →
  dispatched_kernel v column (sel w) size = (Returned new_size, buffer') →
  counters_attached w = true →
  evaluate v column size w
  = (Returned new_size,
     {| this := sampled v size new_size (this w);
        counters :=
          counter_add (_predicate_filtered_rows_counter (this w))
            (to_int64 (size - new_size))
            (counter_add (_predicate_input_rows_counter (this w))
               (to_int64 size) (counters w));
        sel := buffer';
        calls := calls w ++ calls_of_evaluate v size new_size (this w) |}).
Proof.
  intros Hat Hk Hatt. unfold evaluate.
  erewrite bind_returned by reflexivity. cbn [this]. rewrite Hat.
  erewrite bind_returned by (rewrite _evaluate_inner_run, Hk; reflexivity).
  erewrite bind_returned by reflexivity.
  unfold sampled, calls_of_evaluate.
  destruct (do_judge_selectivity_frame (to_uint64 (size - new_size))
              (to_uint64 size) (this w)) as (_ & _ & _ & Hf & Hi).
  cbn [this set_sel log_call].
  destruct (_can_ignore v (this w)); unfold when.
  - erewrite bind_returned by reflexivity.
    erewrite bind_returned.
    2:{ apply update_filter_info_attached.
        unfold counters_attached in *. cbn. by rewrite Hf, Hi. }
    cbn. rewrite Hf, Hi. unfold ret. do 2 f_equal. by rewrite <- !app_assoc.
  - erewrite bind_returned by reflexivity.
    erewrite bind_returned by (by apply update_filter_info_attached).
    cbn. unfold ret. do 2 f_equal. by rewrite <- !app_assoc.
Qed.

(** [evaluate] when the kernel fails: the failure is the outcome, after the
    call was logged; neither the sampler nor the counters are reached. *)
Lemma evaluate_kernel_fails (column : IColumn) (size : Z) (w : World) :
  always_true (this w) = false →
  fails_hard (fst (dispatched_kernel v column (sel w) size)) = true →
  evaluate v column size w
  = (fst (dispatched_kernel v column (sel w) size),
     {| this := this w;
        counters := counters w;
        sel := snd (dispatched_kernel v column (sel w) size);
        calls := calls w ++ [Call_evaluate_inner size] |}).
Proof.
  intros Hat Hk. unfold evaluate.
  erewrite bind_returned by reflexivity. cbn [this]. rewrite Hat.
  unfold bind. rewrite _evaluate_inner_run.
  destruct (dispatched_kernel v column (sel w) size) as [[n|e|msg|] buffer'];
    cbn in Hk; [discriminate| | |]; reflexivity.
Qed.

(** A kernel written with the macro returns the number of survivors of the
    walked selection and leaves them, in order, in front of the buffer. *)
Lemma selector_kernel_spec (is_nullable : bool) (WITH WITHOUT : IColumn → Z → bool)
    (column : IColumn) (buffer : list Z) (size : Z) :
  0 ≤ size ≤ UINT16_MAX →
  (Z.to_nat size ≤ length buffer)%nat →
  selector_kernel is_nullable WITH WITHOUT column buffer size
  = let survivors :=
      List.filter (selector_test is_nullable (WITH column) (WITHOUT column))
        (walked_selection (IColumn_size column) buffer size) in
    (Returned (Z.of_nat (length survivors)),
     survivors ++ drop (length survivors) buffer).
Proof.
  intros Hsize Hlen. unfold selector_kernel.
  by rewrite EVALUATE_BY_SELECTOR_spec.
Qed.

Lemma length_survivors (f : Z → bool) (pred_col_size : Z) (buffer : list Z)
    (size : Z) :
  0 ≤ size →
  (Z.to_nat size ≤ length buffer)%nat →
  0 ≤ Z.of_nat (length (List.filter f (walked_selection pred_col_size buffer size)))
    ≤ size.
Proof.
  intros Hsize Hlen.
  pose proof (sublist_length _ _
                (filter_sublist f (walked_selection pred_col_size buffer size))) as Hle.
  rewrite length_walked_selection in Hle by exact Hlen. lia.
Qed.

(** C1. The short-circuit [evaluate(column, sel, size)].  On a predicate that
    is always true it returns [size] and leaves the world as it was: the
    kernel is not called, the sampler is not fed, no counter is updated, the
    buffer is untouched.  Otherwise, when the kernel returns [new_size], it
    returns [new_size]; the sampler is fed [(size - new_size, size)] exactly
    when the predicate can be ignored; then the two counters are updated with
    the same pair; the calls happen in this order.  A kernel written with the
    macro counts the survivors of the identity selection when the column's
    size equals [size] (dense) and of the first [size] entries of the buffer
    otherwise (sparse), and writes them to the front of the buffer. *)
Theorem evaluate_short_circuit (column : IColumn) (size : Z) (w : World) :
  (always_true (this w) = true →
   evaluate v column size w = (Returned size, w)) ∧
  (always_true (this w) = false →
   counters_attached w = true →
   ∀ (new_size : Z) (buffer' : list Z),
     dispatched_kernel v column (sel w) size = (Returned new_size, buffer') →
     0 ≤ new_size ≤ size ∧ size ≤ UINT16_MAX →
     evaluate v column size w
     = (Returned new_size,
        {| this :=
             if _can_ignore v (this w)
             then do_judge_selectivity v (size - new_size) size (this w)
             else this w;
           counters :=
             counter_add (_predicate_filtered_rows_counter (this w))
               (size - new_size)
               (counter_add (_predicate_input_rows_counter (this w)) size
                  (counters w));
           sel := buffer';
           calls :=
             calls w
             ++ Call_evaluate_inner size
             :: (if _can_ignore v (this w)
                 then [Call_do_judge_selectivity (size - new_size) size]
                 else [])
             ++ [Call_update_filter_info (size - new_size) size] |})) ∧
  (∀ (is_nullable : bool) (WITH WITHOUT : IColumn → Z → bool),
     _evaluate_inner_override v
     = Some (selector_kernel is_nullable WITH WITHOUT) →
     0 ≤ size ≤ UINT16_MAX →
     (Z.to_nat size ≤ length (sel w))%nat →
     let walked :=
       if IColumn_size column =? size then identity_selection size
       else take (Z.to_nat size) (sel w) in
     let survivors :=
       List.filter (selector_test is_nullable (WITH column) (WITHOUT column))
         walked in
     dispatched_kernel v column (sel w) size
     = (Returned (Z.of_nat (length survivors)),
        survivors ++ drop (length survivors) (sel w))).
Proof.
  split; [apply evaluate_always_true|]. split.
  - intros Hat Hatt new_size buffer' Hk [Hn Hs]. unfold UINT16_MAX in Hs.
    rewrite (evaluate_kernel_returns column size w new_size buffer') by done.
    unfold sampled, calls_of_evaluate.
    rewrite (to_uint64_id (size - new_size)) by lia.
    rewrite (to_uint64_id size) by lia.
    rewrite (to_int64_id (size - new_size)) by lia.
    rewrite (to_int64_id size) by lia.
    reflexivity.
  - intros is_nullable WITH WITHOUT Hov Hsize Hlen. cbv zeta.
    unfold dispatched_kernel. rewrite Hov.
    by rewrite selector_kernel_spec.
Qed.

(** C2. [evaluate] on a predicate that is not always true, whose kernel is
    written with the macro, on a strictly increasing buffer of length [size]:
    the first [new_size] entries of the buffer afterwards are strictly
    increasing and form a subsequence of the input selection on the sparse
    path, of the identity selection [0 .. size-1] on the dense path; and of
    the input selection on both paths when its entries are rows of the
    batch. *)
Theorem evaluate_output_increasing_subsequence
    (is_nullable : bool) (WITH WITHOUT : IColumn → Z → bool)
    (column : IColumn) (size : Z) (w : World) :
  _evaluate_inner_override v = Some (selector_kernel is_nullable WITH WITHOUT) →
  always_true (this w) = false →
  counters_attached w = true →
  0 ≤ size ≤ UINT16_MAX →
  length (sel w) = Z.to_nat size →
  strictly_increasing (sel w) →
  ∃ (new_size : Z) (w' : World),
    evaluate v column size w = (Returned new_size, w') ∧
    0 ≤ new_size ≤ size ∧
    let output := take (Z.to_nat new_size) (sel w') in
    length output = Z.to_nat new_size ∧
    strictly_increasing output ∧
    (IColumn_size column = size →
     output `sublist_of` identity_selection size) ∧
    (IColumn_size column ≠ size → output `sublist_of` sel w) ∧
    (Forall (λ x, 0 ≤ x < size) (sel w) → output `sublist_of` sel w).
Proof.
  intros Hov Hat Hatt Hsize Hlen Hinc.
  assert (Hlen' : (Z.to_nat size ≤ length (sel w))%nat) by lia.
  pose proof (selector_kernel_spec is_nullable WITH WITHOUT column (sel w) size
                Hsize Hlen') as Hk.
  cbv zeta in Hk.
  set (test := selector_test is_nullable (WITH column) (WITHOUT column)) in *.
  set (walked := walked_selection (IColumn_size column) (sel w) size) in *.
  set (survivors := List.filter test walked) in *.
  assert (Hdisp : dispatched_kernel v column (sel w) size
                  = (Returned (Z.of_nat (length survivors)),
                     survivors ++ drop (length survivors) (sel w))).
  { unfold dispatched_kernel. by rewrite Hov. }
  eexists _, _. split; [by apply evaluate_kernel_returns|].
  split; [apply length_survivors; lia|].
  cbn [sel]. rewrite Nat2Z.id, take_app_length.
  assert (Hdense : IColumn_size column = size →
                   survivors `sublist_of` identity_selection size).
  { intros Hd. subst survivors walked. unfold walked_selection.
    apply Z.eqb_eq in Hd. rewrite Hd. apply filter_sublist. }
  assert (Hsparse : IColumn_size column ≠ size →
                    survivors `sublist_of` sel w).
  { intros Hs. subst survivors walked. unfold walked_selection.
    apply Z.eqb_neq in Hs. rewrite Hs.
    etrans; [apply filter_sublist | apply sublist_take]. }
  split; [reflexivity|]. split; [|split; [|split]].
  - apply (strictly_increasing_sublist _ walked); [apply filter_sublist|].
    by apply walked_selection_increasing.
  - exact Hdense.
  - exact Hsparse.
  - intros Hvalid.
    destruct (decide (IColumn_size column = size)) as [Hd|Hs]; [|auto].
    rewrite (increasing_valid_is_identity (sel w) size) by done. auto.
Qed.

End Evaluate.

(** The two theorems on the equality predicate [= 5] over the column
    [[3; 5; 5; 7]]: rows 1 and 2 survive. *)
Lemma evaluate_short_circuit_witness :
  @evaluate example_collaborators (example_variant 5 false (1 # 2))
    [3; 5; 5; 7] 4 example_always_true_world
  = (Returned 4, example_always_true_world) ∧
  @evaluate example_collaborators (example_variant 5 false 0)
    [3; 5; 5; 7] 4 example_runtime_filter_world
  = (Returned 2,
     {| this :=
          {| _column_id := 0; _opposite := false; _runtime_filter_id := 7;
             _judge_counter := 1; _judge_input_rows := 4;
             _judge_filter_rows := 2; _always_true := false;
             _predicate_filtered_rows_counter := Some 1%positive;
             _predicate_input_rows_counter := Some 2%positive |};
        counters :=
          counter_add (Some 1%positive) 2
            (counter_add (Some 2%positive) 4
               (counters example_runtime_filter_world));
        sel := [1; 2; 2; 3];
        calls := [Call_evaluate_inner 4; Call_do_judge_selectivity 2 4;
                  Call_update_filter_info 2 4] |}) ∧
  @dispatched_kernel example_collaborators (example_variant 5 false 0)
    [3; 5; 5; 7] [0; 1; 2; 3] 4
  = (Returned 2, [1; 2; 2; 3]).
Proof.
  split; [|split].
  - apply (proj1 (@evaluate_short_circuit example_collaborators
                    (example_variant 5 false (1 # 2)) [3; 5; 5; 7] 4
                    example_always_true_world)).
    reflexivity.
  - apply (proj1 (proj2 (@evaluate_short_circuit example_collaborators
                           (example_variant 5 false 0) [3; 5; 5; 7] 4
                           example_runtime_filter_world))).
    + reflexivity.
    + reflexivity.
    + reflexivity.
    + unfold UINT16_MAX. lia.
  - apply (proj2 (proj2 (@evaluate_short_circuit example_collaborators
                           (example_variant 5 false 0) [3; 5; 5; 7] 4
                           example_runtime_filter_world))
             false (λ _ _, false) (example_equals 5 false)).
    + reflexivity.
    + unfold UINT16_MAX. lia.
    + cbn. lia.
Defined.

Lemma strictly_increasing_0123 : strictly_increasing [0; 1; 2; 3].
Proof.
  repeat (apply strictly_increasing_cons; split;
          [repeat constructor; lia|]).
  apply strictly_increasing_nil.
Qed.

Lemma evaluate_output_increasing_subsequence_witness :
  ∃ (new_size : Z) (w' : World),
    @evaluate example_collaborators (example_variant 5 false 0)
      [3; 5; 5; 7] 4 example_world = (Returned new_size, w') ∧
    0 ≤ new_size ≤ 4 ∧
    let output := take (Z.to_nat new_size) (sel w') in
    length output = Z.to_nat new_size ∧
    strictly_increasing output ∧
    (4 = 4 → output `sublist_of` identity_selection 4) ∧
    (4 ≠ 4 → output `sublist_of` [0; 1; 2; 3]) ∧
    (Forall (λ x, 0 ≤ x < 4) [0; 1; 2; 3] →
     output `sublist_of` [0; 1; 2; 3]).
Proof.
  apply (@evaluate_output_increasing_subsequence example_collaborators
           (example_variant 5 false 0) false (λ _ _, false)
           (example_equals 5 false) [3; 5; 5; 7] 4 example_world).
  - reflexivity.
  - reflexivity.
  - reflexivity.
  - unfold UINT16_MAX. lia.
  - reflexivity.
  - exact strictly_increasing_0123.
Defined.

(** The equality predicate [= 5] on the batch [[3; 5; 5; 7]] keeps rows 1 and
    2; negated, it keeps rows 0 and 3.  The dense path and the sparse path
    with the explicit identity agree. *)
Example equality_predicate_runs :
  let run opposite column buffer :=
    @evaluate example_collaborators (example_variant 5 opposite 0)
      column 4 (set_sel buffer example_world) in
  (fst (run false [3; 5; 5; 7] [0; 1; 2; 3]) = Returned 2 ∧
   take 2 (sel (snd (run false [3; 5; 5; 7] [0; 1; 2; 3]))) = [1; 2]) ∧
  (fst (run true [3; 5; 5; 7] [0; 1; 2; 3]) = Returned 2 ∧
   take 2 (sel (snd (run true [3; 5; 5; 7] [0; 1; 2; 3]))) = [0; 3]) ∧
  (fst (run false [3; 5; 5; 7; 5] [0; 1; 2; 3]) = Returned 2 ∧
   take 2 (sel (snd (run false [3; 5; 5; 7; 5] [0; 1; 2; 3]))) = [1; 2]).
Proof. by vm_compute. Qed.

(** ** The selectivity sampler *)

Section Sampler.
Context `{Collaborators} (v : Variant).

(** A call with a running countdown decrements it and accumulates the two
    totals; the judgment is made on the new totals. *)
Lemma do_judge_selectivity_counting (filter_rows input_rows : Z)
    (p : ColumnPredicate) :
  _judge_counter p ≠ 0 →
  _always_true p = false →
  let p' := do_judge_selectivity v filter_rows input_rows p in
  _judge_counter p' = to_int32 (_judge_counter p - 1) ∧
  _judge_filter_rows p' = to_uint64 (_judge_filter_rows p + filter_rows) ∧
  _judge_input_rows p' = to_uint64 (_judge_input_rows p + input_rows) ∧
  _always_true p'
  = judge_selectivity (get_ignore_threshold v)
      (_judge_filter_rows p') (_judge_input_rows p') false.
Proof.
  intros Hc Hat. unfold do_judge_selectivity.
  apply Z.eqb_neq in Hc. rewrite Hc. cbn. rewrite Hat. by cbn.
Qed.

(** A call that finds the countdown at zero starts a new window: the
    countdown is reloaded, the flag cleared, and the totals restart from the
    rows of this very call.  This holds whatever the flag was. *)
Lemma do_judge_selectivity_expired (filter_rows input_rows : Z)
    (p : ColumnPredicate) :
  _judge_counter p = 0 →
  let p' := do_judge_selectivity v filter_rows input_rows p in
  _judge_counter p' = runtime_filter_sampling_frequency ∧
  _judge_filter_rows p' = to_uint64 (0 + filter_rows) ∧
  _judge_input_rows p' = to_uint64 (0 + input_rows) ∧
  _always_true p'
  = judge_selectivity (get_ignore_threshold v)
      (_judge_filter_rows p') (_judge_input_rows p') false.
Proof.
  intros Hc. unfold do_judge_selectivity. rewrite Hc. by cbn.
Qed.

Lemma COUNTER_UPDATE_frame (c : shared_ptr) (value : Z) (w : World) :
  this (snd (COUNTER_UPDATE c value w)) = this w ∧
  calls (snd (COUNTER_UPDATE c value w)) = calls w.
Proof.
  unfold COUNTER_UPDATE. destruct c as [l|]; [|done].
  by destruct (counters w !! l).
Qed.

Lemma update_filter_info_this (filter_rows input_rows : Z) (w : World) :
  this (snd (update_filter_info filter_rows input_rows w)) = this w.
Proof.
  unfold update_filter_info, bind, modify, get_this. cbn.
  set (w1 := log_call _ w).
  pose proof (COUNTER_UPDATE_frame (_predicate_input_rows_counter (this w))
                input_rows w1) as [Ht1 _].
  destruct (COUNTER_UPDATE (_predicate_input_rows_counter (this w))
              input_rows w1) as [[[]|e|msg|] w2]; cbn in *; try done.
  rewrite <- Ht1. apply COUNTER_UPDATE_frame.
Qed.

(** A predicate that cannot be ignored keeps its whole object state through
    [evaluate], whatever the outcome of the call. *)
Lemma evaluate_this_not_ignorable (column : IColumn) (size : Z) (w : World) :
  _can_ignore v (this w) = false →
  this (snd (evaluate v column size w)) = this w.
Proof.
  intros Hci. unfold evaluate.
  erewrite bind_returned by reflexivity. cbn [this].
  destruct (always_true (this w)); [done|].
  unfold bind at 1. rewrite _evaluate_inner_run.
  destruct (dispatched_kernel v column (sel w) size) as [[n|e|msg|] buffer'];
    cbn [fst snd]; try done.
  erewrite bind_returned by reflexivity. cbn [this set_sel log_call].
  rewrite Hci. unfold when. erewrite bind_returned by reflexivity.
  unfold bind at 1.
  match goal with
  | |- context [update_filter_info ?f ?i ?w0] =>
      pose proof (update_filter_info_this f i w0) as Ht;
      destruct (update_filter_info f i w0) as [[[]|e|msg|] w2]
  end; cbn in *; done.
Qed.

Lemma evaluate_all_this_not_ignorable
    (batches : list (IColumn * list Z * Z)) (w : World) :
  _can_ignore v (this w) = false →
  this (evaluate_all v batches w) = this w.
Proof.
  revert w. induction batches as [|[[column buffer] size] rest IH];
    intros w Hci; [done|].
  cbn [evaluate_all].
  pose proof (evaluate_this_not_ignorable column size (set_sel buffer w) Hci)
    as Hstep. cbn [this set_sel] in Hstep.
  rewrite IH; rewrite Hstep; done.
Qed.

(** C4. Without an override, [_can_ignore] holds exactly when the
    runtime-filter identifier is not -1; and a predicate whose identifier is
    -1 and whose flag is clear (as the constructor leaves it) keeps the flag
    clear, and its whole sampler state, through any sequence of [evaluate]
    calls, whatever columns, buffers and sizes they are made on. *)
Theorem no_runtime_filter_never_always_true
    (batches : list (IColumn * list Z * Z)) (w : World) :
  _can_ignore_override v = None →
  _runtime_filter_id (this w) = -1 →
  _always_true (this w) = false →
  (∀ p : ColumnPredicate,
     _can_ignore v p = true ↔ _runtime_filter_id p ≠ -1) ∧
  _always_true (this (evaluate_all v batches w)) = false ∧
  this (evaluate_all v batches w) = this w ∧
  (∀ (column_id : Z) (opposite : bool) (heap : gmap positive Z)
     (buffer : list Z),
     _always_true
       (this (evaluate_all v batches (new_world column_id opposite heap buffer)))
     = false).
Proof.
  intros Hov Hid Hat.
  assert (Hiff : ∀ p, _can_ignore v p = true ↔ _runtime_filter_id p ≠ -1).
  { intros p. unfold _can_ignore. rewrite Hov. unfold Base._can_ignore.
    rewrite negb_true_iff. apply Z.eqb_neq. }
  assert (Hno : ∀ w0, _runtime_filter_id (this w0) = -1 →
                      _can_ignore v (this w0) = false).
  { intros w0 Hw0. apply not_true_is_false. rewrite Hiff. tauto. }
  split; [exact Hiff|].
  rewrite (evaluate_all_this_not_ignorable batches w) by auto.
  split; [exact Hat|]. split; [reflexivity|].
  intros column_id opposite heap buffer.
  rewrite evaluate_all_this_not_ignorable; [reflexivity|].
  apply Hno. reflexivity.
Qed.

(** Once the flag is set, no sequence of [evaluate] calls reaches the sampler:
    the object, the counters and the call log stay as they are. *)
Lemma evaluate_all_always_true
    (batches : list (IColumn * list Z * Z)) (w : World) :
  always_true (this w) = true →
  this (evaluate_all v batches w) = this w ∧
  counters (evaluate_all v batches w) = counters w ∧
  calls (evaluate_all v batches w) = calls w.
Proof.
  revert w. induction batches as [|[[column buffer] size] rest IH];
    intros w Hat; [done|].
  cbn [evaluate_all].
  rewrite (evaluate_always_true v column size (set_sel buffer w)) by exact Hat.
  cbn [snd]. destruct (IH (set_sel buffer w) Hat) as (-> & -> & ->). done.
Qed.

End Sampler.

(** C3, on the code: a runtime-filter predicate ([_runtime_filter_id] 7,
    ignore threshold 1/2, sampling frequency 2) whose first batch filters
    nothing becomes always true with the countdown at 1; after that, any
    number of [evaluate] calls leaves the flag set and the countdown at 1,
    and logs no call: the window never expires and the reset never comes. *)
Theorem always_true_never_expires :
  let v := example_variant 5 false (1 # 2) in
  let w1 :=
    snd (@evaluate example_collaborators v [5; 5; 5; 5] 4
           example_runtime_filter_world) in
  (_always_true (this w1) = true ∧ _judge_counter (this w1) = 1) ∧
  ∀ n : nat,
    let wn :=
      @evaluate_all example_collaborators v
        (replicate n ([3; 5; 5; 7], [0; 1; 2; 3], 4)) w1 in
    _always_true (this wn) = true ∧
    _judge_counter (this wn) = 1 ∧
    calls wn = calls w1.
Proof.
  cbv zeta. split; [by vm_compute|]. intros n.
  match goal with
  | |- context [evaluate_all ?v ?b ?w] =>
      destruct (@evaluate_all_always_true example_collaborators v b w)
        as (-> & _ & ->); [by vm_compute|]
  end.
  by vm_compute.
Qed.

Lemma no_runtime_filter_never_always_true_witness :
  _always_true
    (this (@evaluate_all example_collaborators (example_variant 5 false (1 # 2))
             [([5; 5; 5; 5], [0; 1; 2; 3], 4);
              ([5; 5; 5; 5], [0; 1; 2; 3], 4);
              ([5; 5; 5; 5], [0; 1; 2; 3], 4)]
             example_world))
  = false.
Proof.
  apply (@no_runtime_filter_never_always_true example_collaborators
           (example_variant 5 false (1 # 2))
           [([5; 5; 5; 5], [0; 1; 2; 3], 4);
            ([5; 5; 5; 5], [0; 1; 2; 3], 4);
            ([5; 5; 5; 5], [0; 1; 2; 3], 4)]
           example_world).
  - reflexivity.
  - reflexivity.
  - reflexivity.
Defined.

(** ** Defaults of the base class *)

(** C7, as the claim has it, fails where [DCHECK] is compiled in: the kernel
    is then not the only default that fails hard.  A variant that overrides
    nothing also fails hard in [evaluate_vec], at its
    [DCHECK(false) << "should not reach here"]. *)
Lemma base_class_defaults_counterexample :
  evaluate_vec_override
    (@plain_variant example_collaborators_debug PredicateType.IS_NULL) = None ∧
  @evaluate_vec example_collaborators_debug
    (@plain_variant example_collaborators_debug PredicateType.IS_NULL)
    [3; 5; 5; 7] 4 [true; true; true; true] example_world
  = (CheckFailed "should not reach here", example_world) ∧
  fails_hard
    (fst (@evaluate_vec example_collaborators_debug
            (@plain_variant example_collaborators_debug PredicateType.IS_NULL)
            [3; 5; 5; 7] 4 [true; true; true; true] example_world))
  = true.
Proof. split_and!; reflexivity. Qed.

(** C7, amended.  A variant that does not override them inherits: [true] from
    the statistics, bloom-filter and dictionary [evaluate_and]; [false] from
    [is_always_true] and [evaluate_del]; from the inverted-index [evaluate] a
    returned [NotSupported] status (a value, not a throw) with the bitmap
    untouched; and from [_evaluate_inner] a thrown [INTERNAL_ERROR] in every
    build, which the short-circuit [evaluate] passes on.  The remaining
    defaults of the base class: [evaluate_and] and [evaluate_or] on a column,
    [support_zonemap], [can_do_bloom_filter], [get_ignore_threshold],
    [is_runtime_filter] and [_can_ignore] return; [evaluate_vec],
    [evaluate_and_vec], [get_search_str] and [set_page_ng_bf] fail hard
    exactly where [DCHECK] is compiled in, and return having done nothing
    where it is compiled out.  So the kernel is the only default that fails
    hard in a build without [DCHECK], and one of five in a build with it. *)
Theorem base_class_defaults `{Collaborators} (v : Variant) :
  (evaluate_and_statistic_override v = None →
   ∀ statistic, evaluate_and_statistic v statistic = Returned true) ∧
  (evaluate_and_bloom_filter_override v = None →
   ∀ bf, evaluate_and_bloom_filter v bf = Returned true) ∧
  (evaluate_and_dict_words_override v = None →
   ∀ dict_words dict_count,
     evaluate_and_dict_words v dict_words dict_count = Returned true) ∧
  (is_always_true_override v = None →
   ∀ statistic, is_always_true v statistic = Returned false) ∧
  (evaluate_del_override v = None →
   ∀ statistic, evaluate_del v statistic = Returned false) ∧
  (evaluate_inverted_index_override v = None →
   ∀ name_with_type iterator num_rows bitmap,
     evaluate_inverted_index v name_with_type iterator num_rows bitmap
     = Returned
         (Status_NotSupported
            "Not Implemented evaluate with inverted index, please check the predicate",
          bitmap) ∧
     fails_hard
       (evaluate_inverted_index v name_with_type iterator num_rows bitmap)
     = false) ∧
  (evaluate_and_column_override v = None →
   ∀ column sel size flags,
     evaluate_and_column v column sel size flags = Returned flags) ∧
  (evaluate_or_column_override v = None →
   ∀ column sel size flags,
     evaluate_or_column v column sel size flags = Returned flags) ∧
  (support_zonemap_override v = None → support_zonemap v = Returned true) ∧
  (can_do_bloom_filter_override v = None →
   ∀ ngram, can_do_bloom_filter v ngram = Returned false) ∧
  (get_ignore_threshold_override v = None →
   get_ignore_threshold v = double_zero) ∧
  (is_runtime_filter_override v = None →
   ∀ p, is_runtime_filter v p = _can_ignore v p) ∧
  (_can_ignore_override v = None →
   ∀ p, _can_ignore v p = negb (_runtime_filter_id p =? -1)) ∧
  (evaluate_vec_override v = None →
   ∀ column size flags w,
     evaluate_vec v column size flags w
     = (if DCHECK_IS_ON then CheckFailed "should not reach here"
        else Returned flags, w) ∧
     fails_hard (fst (evaluate_vec v column size flags w)) = DCHECK_IS_ON) ∧
  (evaluate_and_vec_override v = None →
   ∀ column size flags w,
     evaluate_and_vec v column size flags w
     = (if DCHECK_IS_ON then CheckFailed "should not reach here"
        else Returned flags, w) ∧
     fails_hard (fst (evaluate_and_vec v column size flags w)) = DCHECK_IS_ON) ∧
  (get_search_str_override v = None →
   ∀ w,
     get_search_str v w
     = (if DCHECK_IS_ON then CheckFailed "should not reach here"
        else Returned "", w) ∧
     fails_hard (fst (get_search_str v w)) = DCHECK_IS_ON) ∧
  (set_page_ng_bf_override v = None →
   ∀ bf w,
     set_page_ng_bf v bf w
     = (if DCHECK_IS_ON then CheckFailed "should not reach here"
        else Returned tt, w) ∧
     fails_hard (fst (set_page_ng_bf v bf w)) = DCHECK_IS_ON) ∧
  (_evaluate_inner_override v = None →
   ∀ column size w,
     fst (_evaluate_inner v column size w)
     = Thrown (Exception_ INTERNAL_ERROR "Not Implemented _evaluate_inner") ∧
     fails_hard (fst (_evaluate_inner v column size w)) = true ∧
     (always_true (this w) = false →
      fst (evaluate v column size w)
      = Thrown (Exception_ INTERNAL_ERROR "Not Implemented _evaluate_inner"))).
Proof.
  split_and!; intros Hov.
  - intros statistic. unfold evaluate_and_statistic. by rewrite Hov.
  - intros bf. unfold evaluate_and_bloom_filter. by rewrite Hov.
  - intros dict_words dict_count. unfold evaluate_and_dict_words.
    by rewrite Hov.
  - intros statistic. unfold is_always_true. by rewrite Hov.
  - intros statistic. unfold evaluate_del. by rewrite Hov.
  - intros name_with_type iterator num_rows bitmap.
    unfold evaluate_inverted_index. by rewrite Hov.
  - intros column sel size flags. unfold evaluate_and_column. by rewrite Hov.
  - intros column sel size flags. unfold evaluate_or_column. by rewrite Hov.
  - unfold support_zonemap. by rewrite Hov.
  - intros ngram. unfold can_do_bloom_filter. by rewrite Hov.
  - unfold get_ignore_threshold. by rewrite Hov.
  - intros p. unfold is_runtime_filter. by rewrite Hov.
  - intros p. unfold _can_ignore. by rewrite Hov.
  - intros column size flags w. unfold evaluate_vec. rewrite Hov.
    unfold Base.evaluate_vec, DCHECK, bind, ret.
    by destruct DCHECK_IS_ON.
  - intros column size flags w. unfold evaluate_and_vec. rewrite Hov.
    unfold Base.evaluate_and_vec, DCHECK, bind, ret.
    by destruct DCHECK_IS_ON.
  - intros w. unfold get_search_str. rewrite Hov.
    unfold Base.get_search_str, DCHECK, bind, ret.
    by destruct DCHECK_IS_ON.
  - intros bf w. unfold set_page_ng_bf. rewrite Hov.
    unfold Base.set_page_ng_bf, DCHECK, ret.
    by destruct DCHECK_IS_ON.
  - intros column size w.
    assert (Hk : dispatched_kernel v column (sel w) size
                 = Base._evaluate_inner column (sel w) size).
    { unfold dispatched_kernel. by rewrite Hov. }
    rewrite _evaluate_inner_run, Hk. split_and!; try done.
    intros Hat. rewrite evaluate_kernel_fails; [| exact Hat |]; by rewrite Hk.
Qed.

Lemma base_class_defaults_witness :
  @evaluate_and_statistic example_collaborators
    (@plain_variant example_collaborators PredicateType.IS_NULL) (10, 20)
  = Returned true ∧
  fst (@evaluate example_collaborators
         (@plain_variant example_collaborators PredicateType.IS_NULL)
         [3; 5; 5; 7] 4 example_world)
  = Thrown (Exception_ INTERNAL_ERROR "Not Implemented _evaluate_inner") ∧
  fails_hard
    (fst (@get_search_str example_collaborators
            (@plain_variant example_collaborators PredicateType.IS_NULL)
            example_world))
  = false ∧
  fails_hard
    (fst (@get_search_str example_collaborators_debug
            (@plain_variant example_collaborators_debug PredicateType.IS_NULL)
            example_world))
  = true.
Proof.
  pose proof (@base_class_defaults example_collaborators
                (@plain_variant example_collaborators PredicateType.IS_NULL))
    as (Hstat & _ & _ & _ & _ & _ & _ & _ & _ & _ & _ & _ & _ & _ & _
        & Hstr & _ & Hinner).
  pose proof (@base_class_defaults example_collaborators_debug
                (@plain_variant example_collaborators_debug
                   PredicateType.IS_NULL))
    as (_ & _ & _ & _ & _ & _ & _ & _ & _ & _ & _ & _ & _ & _ & _
        & Hstr_debug & _).
  split_and!.
  - apply Hstat. reflexivity.
  - apply (Hinner eq_refl [3; 5; 5; 7] 4 example_world). reflexivity.
  - apply (Hstr eq_refl example_world).
  - apply (Hstr_debug eq_refl example_world).
Defined.

(** ** Rendering of the kinds *)

(** C8, as the claim has it, fails on [type_to_string]: a kind without a
    [case] label is rendered as the empty string, not as "unknown". *)
Lemma type_to_string_default_counterexample :
  type_to_string_has_case PredicateType.BITMAP_FILTER = false ∧
  type_to_string PredicateType.BITMAP_FILTER = "" ∧
  type_to_string PredicateType.BITMAP_FILTER ≠ "unknown".
Proof. repeat split. discriminate. Qed.

(** What [type_to_string] does with a kind it has no [case] label for. *)
Lemma type_to_string_default (type : PredicateType) :
  type_to_string_has_case type = false → type_to_string type = "".
Proof. by destruct type. Qed.

(** C8, amended.  Both renderings are functions on the whole enumeration.
    [pred_type_string] renders every kind without a [case] label as
    "unknown", and every kind, BITMAP_FILTER and MATCH included, as a
    non-empty string.  [type_to_string] renders every kind it has a [case]
    label for as a non-empty string. *)
Theorem kind_rendering (type : PredicateType) :
  (pred_type_string_has_case type = false →
   pred_type_string type = "unknown") ∧
  pred_type_string type ≠ "" ∧
  (type_to_string_has_case type = true → type_to_string type ≠ "").
Proof.
  split_and!; destruct type; cbn; first [done | discriminate].
Qed.

Lemma kind_rendering_witness :
  pred_type_string PredicateType.BITMAP_FILTER = "unknown" ∧
  pred_type_string PredicateType.MATCH ≠ "" ∧
  type_to_string PredicateType.BF ≠ "".
Proof.
  split; [|split].
  - apply (proj1 (kind_rendering PredicateType.BITMAP_FILTER)). reflexivity.
  - apply (proj1 (proj2 (kind_rendering PredicateType.MATCH))).
  - apply (proj2 (proj2 (kind_rendering PredicateType.BF))). reflexivity.
Defined.

(** ** Attaching the profile counters *)

(** The constructor leaves both counters pointing to live counters. *)
Lemma new_world_counters_attached `{Collaborators} (column_id : Z)
    (opposite : bool) (heap : gmap positive Z) (buffer : list Z) :
  counters_attached (new_world column_id opposite heap buffer) = true.
Proof.
  unfold new_world, ColumnPredicate_new, make_shared_Counter, counters_attached.
  cbn. set (l1 := fresh (dom heap)).
  set (l2 := fresh (dom (<[l1:=0]> heap))).
  rewrite lookup_insert_eq.
  destruct (decide (l2 = l1)) as [->|Hne].
  - by rewrite lookup_insert_eq.
  - by rewrite lookup_insert_ne, lookup_insert_eq.
Qed.

(** C10. [attach_profile_counter(filter_id, filtered, input)] sets
    [_runtime_filter_id] to [filter_id] in every case, so that (without an
    override of [_can_ignore]) the predicate can be ignored afterwards exactly
    when [filter_id] is not -1.  The call returns in a release build, and in a
    debug build when both pointers are non-null.  When it returns, each stored
    counter is the supplied pointer if that is non-null and the old one
    otherwise.  In every case the stored counters stay non-null (they are
    non-null from the constructor on), and nothing else changes: not the
    other fields of the object, not the counters in the heap, the buffer or
    the call log. *)
Theorem attach_profile_counter_effect `{Collaborators} (v : Variant)
    (filter_id : Z) (filtered input : shared_ptr) (w : World) :
  let outcome := fst (attach_profile_counter filter_id filtered input w) in
  let w' := snd (attach_profile_counter filter_id filtered input w) in
  _runtime_filter_id (this w') = filter_id ∧
  (_can_ignore_override v = None →
   (_can_ignore v (this w') = true ↔ filter_id ≠ -1)) ∧
  (outcome = Returned tt ↔
   DCHECK_IS_ON = false ∨
   (is_not_null filtered = true ∧ is_not_null input = true)) ∧
  (outcome = Returned tt →
   _predicate_filtered_rows_counter (this w')
   = (if is_not_null filtered then filtered
      else _predicate_filtered_rows_counter (this w)) ∧
   _predicate_input_rows_counter (this w')
   = (if is_not_null input then input
      else _predicate_input_rows_counter (this w))) ∧
  (is_not_null (_predicate_filtered_rows_counter (this w)) = true →
   is_not_null (_predicate_filtered_rows_counter (this w')) = true) ∧
  (is_not_null (_predicate_input_rows_counter (this w)) = true →
   is_not_null (_predicate_input_rows_counter (this w')) = true) ∧
  (∀ column_id opposite heap buffer,
     counters_attached (new_world column_id opposite heap buffer) = true) ∧
  (_column_id (this w') = _column_id (this w) ∧
   _opposite (this w') = _opposite (this w) ∧
   _judge_counter (this w') = _judge_counter (this w) ∧
   _judge_input_rows (this w') = _judge_input_rows (this w) ∧
   _judge_filter_rows (this w') = _judge_filter_rows (this w) ∧
   _always_true (this w') = _always_true (this w) ∧
   counters w' = counters w ∧ sel w' = sel w ∧ calls w' = calls w).
Proof.
  cbv zeta.
  assert (Hid : _runtime_filter_id
                  (this (snd (attach_profile_counter filter_id filtered input w)))
                = filter_id).
  { unfold attach_profile_counter, DCHECK, bind, modify_this, modify, when, ret.
    by destruct DCHECK_IS_ON, filtered, input. }
  split; [exact Hid|]. split.
  { intros Hov. unfold _can_ignore. rewrite Hov. unfold Base._can_ignore.
    rewrite Hid, negb_true_iff. apply Z.eqb_neq. }
  split; [|split; [|split; [|split; [|split]]]].
  - unfold attach_profile_counter, DCHECK, bind, modify_this, modify, when, ret.
    destruct DCHECK_IS_ON, filtered, input; cbn;
      split; intros Hx;
      first [done | by auto | by destruct Hx as [|[? ?]]].
  - unfold attach_profile_counter, DCHECK, bind, modify_this, modify, when, ret.
    by destruct DCHECK_IS_ON, filtered, input.
  - unfold attach_profile_counter, DCHECK, bind, modify_this, modify, when, ret.
    by destruct DCHECK_IS_ON, filtered, input.
  - unfold attach_profile_counter, DCHECK, bind, modify_this, modify, when, ret.
    by destruct DCHECK_IS_ON, filtered, input.
  - apply new_world_counters_attached.
  - unfold attach_profile_counter, DCHECK, bind, modify_this, modify, when, ret.
    by destruct DCHECK_IS_ON, filtered, input.
Qed.

Lemma attach_profile_counter_effect_witness :
  @_can_ignore example_collaborators (example_variant 5 false 0)
    (this example_runtime_filter_world) = true ∧
  _predicate_filtered_rows_counter
    (this (snd (@attach_profile_counter example_collaborators 7
                  nullptr (Some 2%positive) example_world)))
  = Some 1%positive.
Proof.
  pose proof (@attach_profile_counter_effect example_collaborators
                (example_variant 5 false 0) 7 (Some 1%positive)
                (Some 2%positive) example_world)
    as (_ & Hcan & _).
  pose proof (@attach_profile_counter_effect example_collaborators
                (example_variant 5 false 0) 7 nullptr
                (Some 2%positive) example_world)
    as (_ & _ & _ & Hkeep & _).
  split.
  - apply (Hcan eq_refl). discriminate.
  - apply (Hkeep eq_refl).
Defined.

(** In a debug build a null counter stops the call at the [DCHECK], after the
    identifier was set and before any counter was replaced. *)
Example attach_null_counter_debug :
  let r :=
    @attach_profile_counter example_collaborators_debug 7
      nullptr (Some 2%positive) example_world in
  fst r = CheckFailed "predicate_filtered_rows_counter != nullptr" ∧
  _runtime_filter_id (this (snd r)) = 7 ∧
  _predicate_filtered_rows_counter (this (snd r)) = Some 1%positive ∧
  _predicate_input_rows_counter (this (snd r)) = Some 2%positive.
Proof. by vm_compute. Qed.

(** ** The DecimalV2 multiply kernel *)

Section Multiply.
Context `{DecimalV2}.
Import MultiplyImpl.

(** The first loop fills [sgn[i]] with the sign of the pair at [i]. *)
Lemma sgn_loop_spec (a b : list Z) :
  ∀ (remaining i : nat) (sgn : list Z),
    (i + remaining ≤ length a)%nat →
    (i + remaining ≤ length b)%nat →
    (i + remaining ≤ length sgn)%nat →
    ∃ sgn',
      sgn_loop a b remaining i sgn = Some sgn' ∧
      length sgn' = length sgn ∧
      (∀ j, (j < i)%nat → sgn' !! j = sgn !! j) ∧
      (∀ j x y, (i ≤ j < i + remaining)%nat →
         a !! j = Some x → b !! j = Some y → sgn' !! j = Some (sign x y)).
Proof.
  induction remaining as [|remaining IH]; intros i sgn Ha Hb Hs.
  - exists sgn. cbn. split_and!; try done. intros; lia.
  - cbn [sgn_loop].
    destruct (lookup_lt_is_Some_2 a i) as [x Hx]; [lia|].
    destruct (lookup_lt_is_Some_2 b i) as [y Hy]; [lia|].
    rewrite Hx, Hy.
    destruct (IH (S i) (<[i:=sign x y]> sgn)) as (sgn' & Hrun & Hlen & Hold & Hnew);
      [lia | lia | rewrite length_insert; lia |].
    exists sgn'. split; [exact Hrun|]. rewrite length_insert in Hlen.
    split; [exact Hlen|]. split.
    + intros j Hj. rewrite Hold by lia. apply list_lookup_insert_ne. lia.
    + intros j x' y' Hj Hx' Hy'.
      destruct (decide (j = i)) as [->|Hne].
      * rewrite Hold by lia. rewrite list_lookup_insert_eq by lia. congruence.
      * apply (Hnew j x' y'); [lia | done | done].
Qed.

(** The sign array [vector_vector] builds for the first [size] pairs. *)
Lemma vector_vector_sgn (a b : list Z) (size : nat) :
  (size ≤ length a)%nat → (size ≤ length b)%nat →
  ∃ sgn,
    sgn_loop a b size 0 (replicate size 0) = Some sgn ∧
    ∀ j x y, (j < size)%nat → a !! j = Some x → b !! j = Some y →
             sgn !! j = Some (sign x y).
Proof.
  intros Ha Hb.
  destruct (sgn_loop_spec a b size 0 (replicate size 0))
    as (sgn & Hrun & _ & _ & Hsgn);
    [lia | lia | rewrite length_replicate; lia |].
  exists sgn. split; [exact Hrun|].
  intros j x y Hj. apply Hsgn. lia.
Qed.

(** The second loop with the check, with the whole output array: on a return
    every result of the range is stored; on a throw at [k] the results before
    [k] are stored, the entry at [k] is the old one when the product
    overflowed and the out-of-range result otherwise, and the entries after
    [k] are the old ones. *)
Lemma multiply_loop_checked_array (a b sgn : list Z) (bound : nat) :
  (∀ j x y, (j < bound)%nat → a !! j = Some x → b !! j = Some y →
            sgn !! j = Some (sign x y)) →
  (bound ≤ length a)%nat → (bound ≤ length b)%nat →
  ∀ (remaining i : nat) (c : list Z),
    (i + remaining ≤ bound)%nat → (bound ≤ length c)%nat →
    match multiply_loop true a b sgn remaining i c with
    | (Returned _, c') =>
        length c' = length c ∧
        (∀ j, (j < i ∨ i + remaining ≤ j)%nat → c' !! j = c !! j) ∧
        (∀ j x y, (i ≤ j < i + remaining)%nat →
           a !! j = Some x → b !! j = Some y →
           overflows x y = false ∧ c' !! j = Some (stored x y))
    | (Thrown e, c') =>
        ∃ k x y,
          (i ≤ k < i + remaining)%nat ∧
          a !! k = Some x ∧ b !! k = Some y ∧
          overflows x y = true ∧
          e = DecimalBinaryOpOverflow x "multiply" y
                (snd (mul_overflow x y)) "decimalv2" ∧
          length c' = length c ∧
          (∀ j x' y', (i ≤ j < k)%nat →
             a !! j = Some x' → b !! j = Some y' →
             overflows x' y' = false ∧ c' !! j = Some (stored x' y')) ∧
          c' !! k = (if fst (mul_overflow x y) then c !! k
                     else Some (stored x y)) ∧
          (∀ j, (j < i ∨ k < j)%nat → c' !! j = c !! j)
    | _ => False
    end.
Proof.
  intros Hsgn Ha Hb.
  induction remaining as [|remaining IH]; intros i c Hi Hc.
  - cbn. split_and!; try done. intros; lia.
  - cbn [multiply_loop].
    destruct (lookup_lt_is_Some_2 a i) as [x Hx]; [lia|].
    destruct (lookup_lt_is_Some_2 b i) as [y Hy]; [lia|].
    rewrite Hx, Hy, (Hsgn i x y ltac:(lia) Hx Hy).
    assert (Hin : (i <? length c)%nat = true) by (apply Nat.ltb_lt; lia).
    rewrite Hin.
    destruct (mul_overflow x y) as [overflowed product] eqn:Hmul.
    assert (Hstored : stored x y = rescale product (sign x y)).
    { unfold stored. by rewrite Hmul. }
    destruct overflowed.
    + exists i, x, y.
      split; [lia|]. split; [done|]. split; [done|].
      split; [unfold overflows; by rewrite Hmul|].
      split; [by rewrite Hmul|]. split; [done|].
      split; [intros; lia|]. rewrite Hmul. split; done.
    + rewrite <- Hstored.
      destruct ((stored x y >? max_decimal) || (stored x y <? min_decimal))
        eqn:Hrange.
      * exists i, x, y.
        split; [lia|]. split; [done|]. split; [done|].
        split.
        { unfold overflows. rewrite Hmul. cbn [fst].
          by rewrite <- orb_assoc, Hrange. }
        split; [by rewrite Hmul|].
        split; [apply length_insert|].
        split; [intros; lia|].
        rewrite Hmul. cbn [fst].
        split; [apply list_lookup_insert_eq; lia|].
        intros j Hj. apply list_lookup_insert_ne. lia.
      * assert (Hok : overflows x y = false).
        { unfold overflows. rewrite Hmul. cbn [fst].
          by rewrite <- orb_assoc, Hrange. }
        specialize (IH (S i) (<[i:=stored x y]> c)).
        rewrite length_insert in IH.
        specialize (IH ltac:(lia) ltac:(lia)).
        destruct (multiply_loop true a b sgn remaining (S i)
                    (<[i:=stored x y]> c)) as [[[]|e|msg|] c']; try done.
        -- destruct IH as (Hlen & Hold & Hnew). split; [exact Hlen|]. split.
           ++ intros j Hj. rewrite Hold by lia.
              apply list_lookup_insert_ne. lia.
           ++ intros j x' y' Hj Hx' Hy'.
              destruct (decide (j = i)) as [->|Hne].
              ** assert (x' = x) as -> by congruence.
                 assert (y' = y) as -> by congruence.
                 split; [exact Hok|]. rewrite Hold by lia.
                 apply list_lookup_insert_eq. lia.
              ** apply (Hnew j x' y'); [lia | done | done].
        -- destruct IH as (k & xk & yk & Hk & Hxk & Hyk & Hover & He & Hlen
                           & Hbefore & Hat & Hold).
           exists k, xk, yk.
           split; [lia|]. do 4 (split; [done|]). split; [exact Hlen|].
           split; [|split].
           ++ intros j x' y' Hj Hx' Hy'.
              destruct (decide (j = i)) as [->|Hne].
              ** assert (x' = x) as -> by congruence.
                 assert (y' = y) as -> by congruence.
                 split; [exact Hok|]. rewrite Hold by lia.
                 apply list_lookup_insert_eq. lia.
              ** apply (Hbefore j x' y'); [lia | done | done].
           ++ rewrite Hat. rewrite list_lookup_insert_ne by lia. done.
           ++ intros j Hj. rewrite Hold by lia.
              apply list_lookup_insert_ne. lia.
Qed.

(** A single pair on which [mul_overflow] reports an overflow: the kernel
    throws and the output array is as it was. *)
Lemma vector_vector_single_overflow (x y c0 : Z) :
  fst (mul_overflow x y) = true →
  vector_vector true [x] [y] [c0] 1
  = (Thrown (DecimalBinaryOpOverflow x "multiply" y
               (snd (mul_overflow x y)) "decimalv2"),
     [c0]).
Proof.
  intros Hrep. unfold vector_vector. cbn.
  destruct (mul_overflow x y) as [overflowed product]. cbn in Hrep.
  by subst overflowed.
Qed.

(** The sign array holds the sign of the mathematical product. *)
Lemma sign_is_sgn (x y : Z) : sign x y = Z.sgn (x * y).
Proof.
  unfold sign.
  destruct (Z.gtb_spec x 0), (Z.gtb_spec y 0), (Z.ltb_spec x 0),
    (Z.ltb_spec y 0), (Z.eqb_spec x 0), (Z.eqb_spec y 0); cbn;
    symmetry;
    first [apply Z.sgn_pos; nia | apply Z.sgn_neg; nia | apply Z.sgn_null; nia].
Qed.

(** How [exact_result] rounds: away from zero. *)
Lemma exact_result_rounds (x y : Z) :
  0 < ONE_BILLION →
  (0 < x * y →
   0 < exact_result x y ∧
   (exact_result x y - 1) * ONE_BILLION < x * y ≤ exact_result x y * ONE_BILLION) ∧
  (x * y < 0 →
   exact_result x y < 0 ∧
   exact_result x y * ONE_BILLION ≤ x * y < (exact_result x y + 1) * ONE_BILLION) ∧
  (x * y = 0 → exact_result x y = 0).
Proof.
  intros HB. unfold exact_result.
  set (p := x * y). set (B := ONE_BILLION) in *.
  split_and!; intros Hp.
  - rewrite (Z.sgn_pos p) by lia.
    assert (Hq : 0 ≤ (p - 1) `quot` B ∧
                 B * ((p - 1) `quot` B) ≤ p - 1 < B * ((p - 1) `quot` B) + B).
    { Z.to_euclidean_division_equations. nia. }
    nia.
  - rewrite (Z.sgn_neg p) by lia.
    assert (Hq : (p + 1) `quot` B ≤ 0 ∧
                 B * ((p + 1) `quot` B) - B < p + 1 ≤ B * ((p + 1) `quot` B)).
    { replace (p - -1) with (p + 1) by lia.
      Z.to_euclidean_division_equations. nia. }
    replace (p - -1) with (p + 1) by lia. nia.
  - rewrite Hp. cbn. by rewrite Z.quot_0_l by lia.
Qed.

(** A product that fits [int128_t] is rescaled without wrap-around. *)
Lemma rescale_exact (x y : Z) :
  0 < ONE_BILLION → in_int128 (x * y) →
  rescale (x * y) (sign x y) = exact_result x y.
Proof.
  intros HB Hp. unfold rescale, exact_result. rewrite sign_is_sgn.
  unfold in_int128, INT128_MIN, INT128_MAX in Hp.
  set (p := x * y) in *. set (B := ONE_BILLION) in *.
  pose proof (Z.sgn_spec p) as Hs. set (s := Z.sgn p) in *.
  assert (Hps : in_int128 (p - s)).
  { unfold in_int128, INT128_MIN, INT128_MAX. lia. }
  rewrite (to_int128_id (p - s)) by exact Hps.
  unfold in_int128, INT128_MIN, INT128_MAX in Hps.
  assert (Hq : (0 ≤ p - s → 0 ≤ (p - s) `quot` B ≤ p - s) ∧
               (p - s ≤ 0 → p - s ≤ (p - s) `quot` B ≤ 0)).
  { Z.to_euclidean_division_equations. nia. }
  set (q := (p - s) `quot` B) in *.
  rewrite (to_int128_id q) by (unfold in_int128, INT128_MIN, INT128_MAX; lia).
  apply to_int128_id. unfold in_int128, INT128_MIN, INT128_MAX. lia.
Qed.

(** The range check on the rounded result decides as a check of the
    mathematical product before rounding would. *)
Lemma exact_result_in_range (x y : Z) :
  0 < ONE_BILLION → min_decimal ≤ 0 ≤ max_decimal →
  min_decimal ≤ exact_result x y ≤ max_decimal ↔
  min_decimal * ONE_BILLION ≤ x * y ≤ max_decimal * ONE_BILLION.
Proof.
  intros HB Hrange.
  destruct (exact_result_rounds x y HB) as (Hpos & Hneg & Hzero).
  set (r := exact_result x y) in *. set (p := x * y) in *.
  set (B := ONE_BILLION) in *.
  destruct (Z.lt_trichotomy p 0) as [Hp|[Hp|Hp]].
  - specialize (Hneg Hp). nia.
  - specialize (Hzero Hp). nia.
  - specialize (Hpos Hp). nia.
Qed.

(** With the modelled [mul_overflow], the kernel's test is the spec's. *)
Lemma overflows_spec (x y : Z) :
  (∀ x y, mul_overflow x y = mul_overflow_model x y) →
  0 < ONE_BILLION → min_decimal ≤ 0 ≤ max_decimal →
  overflows x y = spec_multiply_overflows x y ∧
  (in_int128 (x * y) → stored x y = exact_result x y).
Proof.
  intros Hexact HB Hrange.
  assert (Hstored : in_int128 (x * y) → stored x y = exact_result x y).
  { intros Hp. unfold stored. rewrite Hexact. cbn [mul_overflow_model snd].
    rewrite (to_int128_id (x * y)) by exact Hp. by apply rescale_exact. }
  split; [|exact Hstored].
  unfold overflows, spec_multiply_overflows. rewrite Hexact.
  cbn [mul_overflow_model fst].
  destruct ((INT128_MIN <=? x * y) && (x * y <=? INT128_MAX)) eqn:Hfit;
    [|done].
  cbn [negb orb].
  apply andb_true_iff in Hfit as [Hlo Hhi].
  rewrite Hstored by (unfold in_int128; lia).
  pose proof (exact_result_in_range x y HB Hrange) as Hiff.
  destruct (Z.gtb_spec (exact_result x y) max_decimal),
    (Z.ltb_spec (exact_result x y) min_decimal),
    (Z.ltb_spec (x * y) (min_decimal * ONE_BILLION)),
    (Z.ltb_spec (max_decimal * ONE_BILLION) (x * y)); cbn; try done; lia.
Qed.

Lemma spec_multiply_overflows_fits (x y : Z) :
  spec_multiply_overflows x y = false → in_int128 (x * y).
Proof.
  unfold spec_multiply_overflows, in_int128. intros Hov.
  apply orb_false_iff in Hov as [Hov _].
  apply orb_false_iff in Hov as [Hov _].
  apply negb_false_iff, andb_true_iff in Hov. lia.
Qed.

(** C5. The overflow-checking kernel [vector_vector<true>], with
    [common::mul_overflow] as the spec has it (it reports whether the
    mathematical product leaves [int128_t] and leaves the wrapped product), a
    positive scale and a range that holds 0, on operand arrays of equal
    length and an output array that holds them.  It never leaves defined
    behaviour, and it returns exactly when no pair overflows in the spec's
    sense, a test of the mathematical product before any rounding.  On a
    return every entry below the length is the exact rounded result, within
    [min_decimal .. max_decimal].  Otherwise it throws at the first pair that
    overflows, the exception carrying the two operands and the 128-bit
    product; the entries before that pair are exact results, the entries after
    it are untouched, and the entry of the pair itself is untouched when the
    product left [int128_t], and is the exact result, which lies outside the
    range, when the range check threw: at no index is a wrapped or truncated
    value stored.  Second, for any [mul_overflow] that reports at least every
    product of magnitude 2^128 or more: 999999999999999999999999999 times
    itself throws, be the number the raw value or the raw value of that
    decimal (scaled by 10^9), and the output array is untouched. *)
Theorem checked_multiply_signals_overflow (a b c : list Z) :
  ((∀ x y, mul_overflow x y = mul_overflow_model x y) →
   0 < ONE_BILLION → min_decimal ≤ 0 ≤ max_decimal →
   length b = length a →
   (length a ≤ length c)%nat →
   (fst (vector_vector true a b c (length a)) = Returned tt ↔
    ∀ i x y, a !! i = Some x → b !! i = Some y →
             spec_multiply_overflows x y = false) ∧
   match vector_vector true a b c (length a) with
   | (Returned _, c') =>
       length c' = length c ∧
       (∀ i x y, a !! i = Some x → b !! i = Some y →
          spec_multiply_overflows x y = false ∧
          c' !! i = Some (exact_result x y) ∧
          min_decimal ≤ exact_result x y ≤ max_decimal) ∧
       (∀ j, (length a ≤ j)%nat → c' !! j = c !! j)
   | (Thrown e, c') =>
       ∃ i x y,
         a !! i = Some x ∧ b !! i = Some y ∧
         spec_multiply_overflows x y = true ∧
         e = DecimalBinaryOpOverflow x "multiply" y
               (to_int128 (x * y)) "decimalv2" ∧
         (∀ j x' y', (j < i)%nat →
            a !! j = Some x' → b !! j = Some y' →
            spec_multiply_overflows x' y' = false ∧
            c' !! j = Some (exact_result x' y')) ∧
         (¬ in_int128 (x * y) → c' !! i = c !! i) ∧
         (in_int128 (x * y) →
          to_int128 (x * y) = x * y ∧
          c' !! i = Some (exact_result x y) ∧
          (exact_result x y < min_decimal ∨
           max_decimal < exact_result x y)) ∧
         (∀ j, (i < j)%nat → c' !! j = c !! j) ∧
         length c' = length c
   | _ => False
   end) ∧
  ((∀ x y, in_int128 x → in_int128 y → 2 ^ 128 ≤ Z.abs (x * y) →
           fst (mul_overflow x y) = true) →
   ∀ (n c0 : Z),
     n = 999999999999999999999999999 ∨
     n = 999999999999999999999999999 * 1000000000 →
     vector_vector true [n] [n] [c0] 1
     = (Thrown (DecimalBinaryOpOverflow n "multiply" n
                  (snd (mul_overflow n n)) "decimalv2"),
        [c0])).
Proof.
  split.
  - intros Hexact HB Hrange Hb Hc.
    assert (Hspec : ∀ x y, overflows x y = spec_multiply_overflows x y).
    { intros x y. by apply overflows_spec. }
    assert (Hstored : ∀ x y, in_int128 (x * y) →
                             stored x y = exact_result x y).
    { intros x y. by apply overflows_spec. }
    unfold vector_vector.
    destruct (vector_vector_sgn a b (length a) ltac:(lia) ltac:(lia))
      as (sgn & -> & Hsgn).
    pose proof (multiply_loop_checked_array a b sgn (length a) Hsgn
                  ltac:(lia) ltac:(lia) (length a) 0 c ltac:(lia) Hc)
      as Hloop.
    destruct (multiply_loop true a b sgn (length a) 0 c)
      as [[[]|e|msg|] c']; try done.
    + destruct Hloop as (Hlen & Hold & Hnew).
      assert (Hall : ∀ i x y, a !! i = Some x → b !! i = Some y →
                spec_multiply_overflows x y = false ∧
                c' !! i = Some (exact_result x y) ∧
                min_decimal ≤ exact_result x y ≤ max_decimal).
      { intros i x y Hx Hy.
        destruct (Hnew i x y) as [Hok Hci]; [|done|done|].
        { apply lookup_lt_Some in Hx. lia. }
        rewrite Hspec in Hok.
        pose proof (spec_multiply_overflows_fits x y Hok) as Hfit.
        rewrite Hstored in Hci by exact Hfit.
        split; [exact Hok|]. split; [exact Hci|].
        apply exact_result_in_range; [done|done|].
        unfold spec_multiply_overflows in Hok.
        apply orb_false_iff in Hok as [Hok Hhi].
        apply orb_false_iff in Hok as [_ Hlo]. lia. }
      split.
      * split; [|done]. intros _ i x y Hx Hy.
        by destruct (Hall i x y Hx Hy).
      * split; [exact Hlen|]. split; [exact Hall|].
        intros j Hj. apply Hold. lia.
    + destruct Hloop as (k & x & y & Hk & Hx & Hy & Hover & He & Hlen
                         & Hbefore & Hat & Hold).
      rewrite Hspec in Hover. split.
      * split; [done|]. intros Hall.
        rewrite (Hall k x y Hx Hy) in Hover. discriminate.
      * exists k, x, y. split; [done|]. split; [done|]. split; [done|].
        split; [by rewrite He, Hexact|].
        split.
        { intros j x' y' Hj Hx' Hy'.
          destruct (Hbefore j x' y') as [Hok Hcj]; [lia|done|done|].
          rewrite Hspec in Hok.
          rewrite Hstored in Hcj by by apply spec_multiply_overflows_fits.
          done. }
        rewrite Hexact in Hat. cbn [mul_overflow_model fst] in Hat.
        split; [|split; [|split; [|exact Hlen]]].
        { intros Hout. rewrite Hat.
          destruct ((INT128_MIN <=? x * y) && (x * y <=? INT128_MAX))
            eqn:Hfit; [|done].
          apply andb_true_iff in Hfit. unfold in_int128 in Hout. lia. }
        { intros Hfit.
          split; [by apply to_int128_id|].
          assert (Hb' : (INT128_MIN <=? x * y) && (x * y <=? INT128_MAX)
                        = true).
          { unfold in_int128 in Hfit. apply andb_true_iff. lia. }
          rewrite Hb' in Hat. cbn [negb] in Hat.
          rewrite Hstored in Hat by exact Hfit.
          split; [exact Hat|].
          unfold spec_multiply_overflows in Hover.
          rewrite Hb' in Hover. cbn [negb orb] in Hover.
          pose proof (exact_result_in_range x y HB Hrange) as Hiff.
          apply orb_true_iff in Hover. lia. }
        { intros j Hj. apply Hold. lia. }
  - intros Hdetect n c0 Hn. apply vector_vector_single_overflow.
    apply Hdetect; unfold in_int128, INT128_MIN, INT128_MAX;
      destruct Hn as [-> | ->]; lia.
Qed.

End Multiply.

Lemma checked_multiply_signals_overflow_witness :
  @MultiplyImpl.vector_vector example_decimalv2 true
    [999999999999999999999999999] [999999999999999999999999999] [0] 1
  = (Thrown (DecimalBinaryOpOverflow
               999999999999999999999999999 "multiply"
               999999999999999999999999999
               (to_int128
                  (999999999999999999999999999 * 999999999999999999999999999))
               "decimalv2"),
     [0]) ∧
  (∀ i x y,
     [2500000000; 3000000000] !! i = Some x →
     [2000000000; -500000000] !! i = Some y →
     @spec_multiply_overflows example_decimalv2 x y = false ∧
     [5000000000; -1500000000] !! i
     = Some (@exact_result example_decimalv2 x y) ∧
     @min_decimal example_decimalv2 ≤ @exact_result example_decimalv2 x y
     ≤ @max_decimal example_decimalv2).
Proof.
  split.
  - apply (proj2 (@checked_multiply_signals_overflow example_decimalv2
                    [] [] [])).
    + intros x y _ _ Hout. cbn.
      apply negb_true_iff, andb_false_iff.
      unfold INT128_MIN, INT128_MAX.
      destruct (Z.leb_spec (- 2 ^ 127) (x * y)); [|by left].
      destruct (Z.leb_spec (x * y) (2 ^ 127 - 1)); [|by right]. lia.
    + by left.
  - destruct (proj1 (@checked_multiply_signals_overflow example_decimalv2
                       [2500000000; 3000000000]
                       [2000000000; -500000000] [0; 0])) as [_ Hrun].
    + intros x y. reflexivity.
    + reflexivity.
    + vm_compute. split; discriminate.
    + reflexivity.
    + cbn. lia.
    + exact (proj1 (proj2 Hrun)).
Defined.

(** Runs of the checked kernel with the modelled [mul_overflow].  A product of
    magnitude between 2^127 and 2^128 is reported and nothing is stored; a
    product that fits but is out of range once rescaled throws after the
    exact, out-of-range result was written; a throw at the second pair
    leaves the first result stored. *)
Example vector_vector_overflow_runs :
  @MultiplyImpl.vector_vector example_decimalv2 true
    [2 ^ 64 - 1] [2 ^ 64 + 1] [0] 1
  = (Thrown (DecimalBinaryOpOverflow (2 ^ 64 - 1) "multiply" (2 ^ 64 + 1)
               (-1) "decimalv2"),
     [0]) ∧
  @MultiplyImpl.vector_vector example_decimalv2 true
    [999999999999999999999999999] [2000000000] [0] 1
  = (Thrown (DecimalBinaryOpOverflow
               999999999999999999999999999 "multiply" 2000000000
               (999999999999999999999999999 * 2000000000) "decimalv2"),
     [1999999999999999999999999998]).
Proof. split; reflexivity. Qed.

(** Two runs of the checked kernel: 2.5 * 2 and 3 * (-0.5) are stored as 5 and
    -1.5; a second pair that overflows throws after the first was stored. *)
Example vector_vector_runs :
  @MultiplyImpl.vector_vector example_decimalv2 true
    [2500000000; 3000000000] [2000000000; -500000000] [0; 0] 2
  = (Returned tt, [5000000000; -1500000000]) ∧
  @MultiplyImpl.vector_vector example_decimalv2 true
    [2500000000; 999999999999999999999999999]
    [2000000000; 999999999999999999999999999] [0; 0] 2
  = (Thrown (DecimalBinaryOpOverflow
               999999999999999999999999999 "multiply"
               999999999999999999999999999
               (to_int128
                  (999999999999999999999999999 * 999999999999999999999999999))
               "decimalv2"),
     [5000000000; 0]).
Proof. split; reflexivity. Qed.

(** The sign array holds the sign of the mathematical product. *)
Lemma sign_spec (x y : Z) :
  (MultiplyImpl.sign x y = 1 ∧ 0 < x * y) ∨
  (MultiplyImpl.sign x y = 0 ∧ x * y = 0) ∨
  (MultiplyImpl.sign x y = -1 ∧ x * y < 0).
Proof.
  unfold MultiplyImpl.sign.
  destruct (Z.gtb_spec x 0), (Z.gtb_spec y 0), (Z.ltb_spec x 0),
    (Z.ltb_spec y 0), (Z.eqb_spec x 0), (Z.eqb_spec y 0); cbn; nia.
Qed.

(** With the modelled [mul_overflow], a product that fits [int128_t] is
    rescaled without any wrap-around: what is stored is the mathematical
    [(x * y - sgn) / 10^9 + sgn]. *)
Lemma stored_exact (x y : Z) :
  in_int128 (x * y) →
  @MultiplyImpl.stored example_decimalv2 x y
  = (x * y - MultiplyImpl.sign x y) `quot` 1000000000 + MultiplyImpl.sign x y.
Proof.
  intros Hp. unfold MultiplyImpl.stored, MultiplyImpl.rescale. cbn.
  rewrite (to_int128_id (x * y)) by exact Hp.
  unfold in_int128, INT128_MIN, INT128_MAX in Hp.
  pose proof (sign_spec x y) as Hs.
  set (s := MultiplyImpl.sign x y) in *. set (p := x * y) in *.
  assert (Hps : in_int128 (p - s)).
  { unfold in_int128, INT128_MIN, INT128_MAX. lia. }
  rewrite (to_int128_id (p - s)) by exact Hps.
  unfold in_int128, INT128_MIN, INT128_MAX in Hps.
  assert (Hq : - 2 ^ 127 + 1 ≤ (p - s) `quot` 1000000000 ≤ 2 ^ 127 - 2).
  { Z.to_euclidean_division_equations. lia. }
  rewrite (to_int128_id ((p - s) `quot` 1000000000)).
  2:{ unfold in_int128, INT128_MIN, INT128_MAX. lia. }
  apply to_int128_id. unfold in_int128, INT128_MIN, INT128_MAX. lia.
Qed.

(** ** The zone-map value decoder *)

Lemma memcpy_enough (n : nat) (src : list byte) :
  (n ≤ length src)%nat → memcpy n src = Some (take n src).
Proof.
  intros Hn. unfold memcpy.
  by destruct (Nat.leb_spec n (length src)); [|lia].
Qed.

Lemma memcpy_prefix (n : nat) (src extra : list byte) :
  (n ≤ length src)%nat → memcpy n (src ++ extra) = memcpy n src.
Proof.
  intros Hn. rewrite !memcpy_enough by (rewrite ?length_app; lia).
  by rewrite take_app_le.
Qed.

(** C6. The decoder's case analysis on the primitive type, on a run that is
    long enough.  DECIMALV2: 12 bytes are copied into a [decimal12_t] and the
    result is decoded by [from_olap_decimal] from its integer and fraction.
    DATE: 3 bytes are copied and decoded by [from_olap_date].  DATETIME: 8
    bytes are copied and decoded by [from_olap_datetime].  Every other type:
    [sizeof(ResultType)] bytes are copied over the result as they are.  In
    each case only the bytes copied matter. *)
Theorem get_zone_map_value_cases {ResultType} `{ZoneMapResult ResultType}
    (primitive_type : PrimitiveType) (data_ptr : list byte) :
  (bytes_read primitive_type ≤ length data_ptr)%nat →
  (primitive_type = TYPE_DECIMALV2 →
   get_zone_map_value primitive_type data_ptr
   = Some (from_olap_decimal default_constructed
             (decimal12_integer (take 12 data_ptr))
             (decimal12_fraction (take 12 data_ptr)))) ∧
  (primitive_type = TYPE_DATE →
   get_zone_map_value primitive_type data_ptr
   = Some (from_olap_date default_constructed
             (little_endian (take 3 data_ptr)))) ∧
  (primitive_type = TYPE_DATETIME →
   get_zone_map_value primitive_type data_ptr
   = Some (from_olap_datetime default_constructed
             (little_endian (take 8 data_ptr)))) ∧
  (primitive_type ≠ TYPE_DECIMALV2 → primitive_type ≠ TYPE_DATE →
   primitive_type ≠ TYPE_DATETIME →
   get_zone_map_value primitive_type data_ptr
   = Some (from_object_representation (take sizeof_ResultType data_ptr))) ∧
  (∀ extra,
     get_zone_map_value primitive_type (data_ptr ++ extra)
     = get_zone_map_value primitive_type data_ptr).
Proof.
  intros Hlen. unfold get_zone_map_value.
  destruct primitive_type as [| | |tag]; cbn in Hlen |- *;
    rewrite (memcpy_enough _ data_ptr) by exact Hlen;
    split_and!; try done; intros extra;
    by rewrite memcpy_prefix, memcpy_enough by exact Hlen.
Qed.

Lemma get_zone_map_value_cases_witness :
  @get_zone_map_value Decoded (Decoded_result 4) TYPE_DECIMALV2
    [x07; x00; x00; x00; x00; x00; x00; x00; xff; xff; xff; xff]
  = Some (From_olap_decimal 7 (-1)) ∧
  @get_zone_map_value Decoded (Decoded_result 4) TYPE_DATE
    [x01; x02; x00; x09]
  = Some (From_olap_date 513) ∧
  @get_zone_map_value Decoded (Decoded_result 4) (TYPE_OTHER 5)
    [x01; x02; x03; x04; x05]
  = Some (Reinterpreted [x01; x02; x03; x04]).
Proof.
  split; [|split].
  - exact (proj1 (@get_zone_map_value_cases Decoded (Decoded_result 4)
                    TYPE_DECIMALV2
                    [x07; x00; x00; x00; x00; x00; x00; x00; xff; xff; xff; xff]
                    (le_n 12))
             eq_refl).
  - exact (proj1 (proj2 (@get_zone_map_value_cases Decoded (Decoded_result 4)
                           TYPE_DATE [x01; x02; x00; x09]
                           (le_S _ _ (le_n 3))))
             eq_refl).
  - apply (proj1 (proj2 (proj2 (proj2
             (@get_zone_map_value_cases Decoded (Decoded_result 4)
                (TYPE_OTHER 5) [x01; x02; x03; x04; x05]
                (le_S _ _ (le_n 4))))))); discriminate.
Defined.

(* ===================================================================== *)
(** * Part III: further properties of the embedded code                   *)
(* ===================================================================== *)

(** ** More on the selection-vector compaction *)

Lemma elem_of_filter_bool (f : Z → bool) (l : list Z) (x : Z) :
  x ∈ List.filter f l ↔ x ∈ l ∧ f x = true.
Proof. rewrite !list_elem_of_In. apply filter_In. Qed.

Lemma filter_filter_bool (f g : Z → bool) (l : list Z) :
  List.filter g (List.filter f l) = List.filter (λ x, f x && g x) l.
Proof.
  induction l as [|x l IH]; [done|]. cbn.
  destruct (f x) eqn:Hf; cbn; [|exact IH].
  destruct (g x); cbn; by rewrite IH.
Qed.

Lemma filter_all_true (f : Z → bool) (l : list Z) :
  Forall (λ x, f x = true) l → List.filter f l = l.
Proof.
  induction 1 as [|x l Hx _ IH]; [done|]. cbn. by rewrite Hx, IH.
Qed.

Lemma Forall_filter_true (f : Z → bool) (l : list Z) :
  Forall (λ x, f x = true) (List.filter f l).
Proof.
  apply Forall_forall. intros x Hx. by apply elem_of_filter_bool in Hx as [_ ?].
Qed.

(** X1. [EVALUATE_BY_SELECTOR] on a buffer of at least [size] entries stays
    in bounds and keeps exactly the rows that pass: the first [new_size]
    entries afterwards are the rows of the walked selection on which the row
    test holds, no more and no fewer; the buffer keeps its length and its
    entries from [new_size] on. *)
Theorem EVALUATE_BY_SELECTOR_keeps_exactly_the_passing_rows
    (is_nullable : bool) (WITH WITHOUT : Z → bool)
    (pred_col_size : Z) (buffer : list Z) (size : Z) :
  0 ≤ size ≤ UINT16_MAX →
  (Z.to_nat size ≤ length buffer)%nat →
  ∃ (buffer' : list Z) (new_size : Z),
    EVALUATE_BY_SELECTOR is_nullable WITH WITHOUT pred_col_size buffer size 0
    = Some (buffer', new_size) ∧
    0 ≤ new_size ≤ size ∧
    length buffer' = length buffer ∧
    drop (Z.to_nat new_size) buffer' = drop (Z.to_nat new_size) buffer ∧
    (∀ x, x ∈ take (Z.to_nat new_size) buffer' ↔
          x ∈ walked_selection pred_col_size buffer size ∧
          selector_test is_nullable WITH WITHOUT x = true).
Proof.
  intros Hsize Hlen.
  rewrite EVALUATE_BY_SELECTOR_spec by done. cbv zeta.
  set (survivors := List.filter _ _).
  pose proof (length_survivors (selector_test is_nullable WITH WITHOUT)
                pred_col_size buffer size ltac:(lia) Hlen) as Hn.
  fold survivors in Hn.
  eexists _, _. split; [reflexivity|]. split; [exact Hn|].
  rewrite Nat2Z.id. split_and!.
  - rewrite length_app, length_drop. lia.
  - by rewrite drop_app_length.
  - intros x. rewrite take_app_length. apply elem_of_filter_bool.
Qed.

Lemma EVALUATE_BY_SELECTOR_keeps_exactly_the_passing_rows_witness :
  ∃ (buffer' : list Z) (new_size : Z),
    EVALUATE_BY_SELECTOR false (λ _, false) (λ x, x =? 5) 9 [0; 5; 6; 8] 4 0
    = Some (buffer', new_size) ∧
    0 ≤ new_size ≤ 4 ∧
    length buffer' = 4%nat.
Proof.
  destruct (EVALUATE_BY_SELECTOR_keeps_exactly_the_passing_rows
              false (λ _, false) (λ x, x =? 5) 9 [0; 5; 6; 8] 4)
    as (buffer' & new_size & Hrun & Hn & Hlen & _).
  - unfold UINT16_MAX. lia.
  - cbn. lia.
  - exists buffer', new_size. split; [exact Hrun|]. split; [exact Hn|].
    exact Hlen.
Defined.

(** X2. On a buffer that holds the explicit identity [0 .. size-1] the macro
    gives the same buffer and the same count whatever the size of the
    column: the dense path and the sparse path agree. *)
Theorem EVALUATE_BY_SELECTOR_dense_sparse_agree
    (is_nullable : bool) (WITH WITHOUT : Z → bool)
    (pred_col_size : Z) (buffer : list Z) (size : Z) :
  0 ≤ size ≤ UINT16_MAX →
  take (Z.to_nat size) buffer = identity_selection size →
  EVALUATE_BY_SELECTOR is_nullable WITH WITHOUT pred_col_size buffer size 0
  = EVALUATE_BY_SELECTOR is_nullable WITH WITHOUT size buffer size 0.
Proof.
  intros Hsize Hid.
  assert (Hlen : (Z.to_nat size ≤ length buffer)%nat).
  { pose proof (f_equal length Hid) as Hl.
    unfold identity_selection in Hl. rewrite length_seqZ, length_take in Hl. lia. }
  rewrite !EVALUATE_BY_SELECTOR_spec by done. cbv zeta.
  unfold walked_selection. rewrite Z.eqb_refl, Hid.
  by destruct (pred_col_size =? size).
Qed.

Lemma EVALUATE_BY_SELECTOR_dense_sparse_agree_witness :
  EVALUATE_BY_SELECTOR false (λ _, false) (λ x, x =? 2) 9 [0; 1; 2; 3; 7] 4 0
  = EVALUATE_BY_SELECTOR false (λ _, false) (λ x, x =? 2) 4 [0; 1; 2; 3; 7] 4 0.
Proof.
  apply (EVALUATE_BY_SELECTOR_dense_sparse_agree
           false (λ _, false) (λ x, x =? 2) 9 [0; 1; 2; 3; 7] 4).
  - unfold UINT16_MAX. lia.
  - reflexivity.
Defined.

Section Chain.
Context `{Collaborators}.

Lemma walked_selection_rows (column : IColumn) (buffer : list Z) (size : Z) :
  selects_rows column buffer size →
  strictly_increasing (walked_selection (IColumn_size column) buffer size) ∧
  Forall (λ x, 0 ≤ x < IColumn_size column)
    (walked_selection (IColumn_size column) buffer size).
Proof.
  intros Hrows. unfold walked_selection.
  destruct (Z.eqb_spec (IColumn_size column) size) as [Heq|Hne].
  - split; [apply identity_selection_increasing|].
    apply Forall_forall. intros x Hx. unfold identity_selection in Hx.
    apply list_elem_of_lookup in Hx as [i Hi]. apply lookup_seqZ in Hi. lia.
  - by apply Hrows.
Qed.

(** The selection a second kernel walks after a first one left [survivors]
    in front of the buffer: the survivors themselves, on both paths. *)
Lemma walked_selection_after (column : IColumn) (buffer : list Z) (size : Z)
    (f : Z → bool) :
  selects_rows column buffer size →
  let survivors :=
    List.filter f (walked_selection (IColumn_size column) buffer size) in
  walked_selection (IColumn_size column)
    (survivors ++ drop (length survivors) buffer) (Z.of_nat (length survivors))
  = survivors.
Proof.
  intros Hrows survivors.
  destruct (walked_selection_rows column buffer size Hrows) as [Hinc Hvalid].
  assert (Hsub : survivors `sublist_of`
                   walked_selection (IColumn_size column) buffer size)
    by apply filter_sublist.
  unfold walked_selection at 1.
  destruct (Z.eqb_spec (IColumn_size column) (Z.of_nat (length survivors)))
    as [Heq|Hne].
  - symmetry. apply increasing_valid_is_identity.
    + by apply (strictly_increasing_sublist _ _ Hsub).
    + by rewrite Nat2Z.id.
    + rewrite <- Heq. apply Forall_forall. intros x Hx.
      rewrite Forall_forall in Hvalid. apply Hvalid.
      by apply (elem_of_sublist survivors).
  - by rewrite Nat2Z.id, take_app_length.
Qed.

(** Two kernels written with the macro, one after the other on the same
    column: the second walks the survivors of the first. *)
Lemma selector_kernel_then
    (n1 : bool) (W1 WO1 : IColumn → Z → bool)
    (n2 : bool) (W2 WO2 : IColumn → Z → bool)
    (column : IColumn) (buffer : list Z) (size : Z) :
  0 ≤ size ≤ UINT16_MAX →
  (Z.to_nat size ≤ length buffer)%nat →
  selects_rows column buffer size →
  let t1 := selector_test n1 (W1 column) (WO1 column) in
  let t2 := selector_test n2 (W2 column) (WO2 column) in
  let s1 := List.filter t1 (walked_selection (IColumn_size column) buffer size) in
  let s2 := List.filter t2 s1 in
  let b1 := s1 ++ drop (length s1) buffer in
  selector_kernel n1 W1 WO1 column buffer size
  = (Returned (Z.of_nat (length s1)), b1) ∧
  selector_kernel n2 W2 WO2 column b1 (Z.of_nat (length s1))
  = (Returned (Z.of_nat (length s2)), s2 ++ drop (length s2) b1).
Proof.
  intros Hsize Hlen Hrows t1 t2 s1 s2 b1.
  pose proof (length_survivors t1 (IColumn_size column) buffer size
                ltac:(lia) Hlen) as Hn1. fold s1 in Hn1.
  split; [by rewrite selector_kernel_spec|].
  rewrite selector_kernel_spec.
  - cbv zeta. fold t2. unfold b1, s1.
    rewrite (walked_selection_after column buffer size t1 Hrows). done.
  - lia.
  - unfold b1. rewrite length_app, length_drop. lia.
Qed.

(** X3. Two kernels written with the macro compose to the conjunction of
    their row tests, in either order: run one after the other on a selection
    of rows of the column, each feeding its count and buffer to the next,
    they leave exactly the rows of the walked selection that pass both
    tests, in order, and the same rows whichever kernel runs first. *)
Theorem selector_kernels_compose
    (n1 : bool) (W1 WO1 : IColumn → Z → bool)
    (n2 : bool) (W2 WO2 : IColumn → Z → bool)
    (column : IColumn) (buffer : list Z) (size : Z) :
  0 ≤ size ≤ UINT16_MAX →
  (Z.to_nat size ≤ length buffer)%nat →
  selects_rows column buffer size →
  let t1 := selector_test n1 (W1 column) (WO1 column) in
  let t2 := selector_test n2 (W2 column) (WO2 column) in
  let both :=
    List.filter (λ x, t1 x && t2 x)
      (walked_selection (IColumn_size column) buffer size) in
  ∃ (m1 m2 : Z) (b1 b12 b2 b21 : list Z),
    selector_kernel n1 W1 WO1 column buffer size = (Returned m1, b1) ∧
    selector_kernel n2 W2 WO2 column b1 m1
    = (Returned (Z.of_nat (length both)), b12) ∧
    selector_kernel n2 W2 WO2 column buffer size = (Returned m2, b2) ∧
    selector_kernel n1 W1 WO1 column b2 m2
    = (Returned (Z.of_nat (length both)), b21) ∧
    take (length both) b12 = both ∧
    take (length both) b21 = both.
Proof.
  intros Hsize Hlen Hrows t1 t2 both.
  destruct (selector_kernel_then n1 W1 WO1 n2 W2 WO2 column buffer size
              Hsize Hlen Hrows) as [H1 H12].
  destruct (selector_kernel_then n2 W2 WO2 n1 W1 WO1 column buffer size
              Hsize Hlen Hrows) as [H2 H21].
  cbv zeta in H1, H12, H2, H21. fold t1 t2 in H1, H12, H2, H21.
  rewrite filter_filter_bool in H12, H21. fold both in H12.
  rewrite (filter_ext (λ x, t2 x && t1 x) (λ x, t1 x && t2 x)) in H21
    by (intros; apply andb_comm).
  fold both in H21.
  eexists _, _, _, _, _, _.
  split; [exact H1|]. split; [exact H12|]. split; [exact H2|].
  split; [exact H21|]. by rewrite !take_app_length.
Qed.

(** X4. A kernel written with the macro is idempotent: run again on the
    count and the buffer it returned, on the same column, it returns the same
    count and leaves the buffer as it is. *)
Theorem selector_kernel_idempotent
    (is_nullable : bool) (WITH WITHOUT : IColumn → Z → bool)
    (column : IColumn) (buffer : list Z) (size : Z) :
  0 ≤ size ≤ UINT16_MAX →
  (Z.to_nat size ≤ length buffer)%nat →
  selects_rows column buffer size →
  ∃ (new_size : Z) (buffer' : list Z),
    selector_kernel is_nullable WITH WITHOUT column buffer size
    = (Returned new_size, buffer') ∧
    selector_kernel is_nullable WITH WITHOUT column buffer' new_size
    = (Returned new_size, buffer').
Proof.
  intros Hsize Hlen Hrows.
  destruct (selector_kernel_then is_nullable WITH WITHOUT
              is_nullable WITH WITHOUT column buffer size Hsize Hlen Hrows)
    as [H1 H2].
  cbv zeta in H1, H2.
  rewrite (filter_all_true _ (List.filter _ _)) in H2
    by apply Forall_filter_true.
  eexists _, _. split; [exact H1|].
  rewrite H2. f_equal.
  by rewrite drop_app_length.
Qed.

End Chain.

(** The buffer [[0; 1; 2; 3]] selects rows of a column of five rows. *)
Lemma example_selects_rows :
  @selects_rows example_collaborators [3; 5; 5; 7; 5] [0; 1; 2; 3] 4.
Proof.
  intros _. split; [exact strictly_increasing_0123|].
  repeat constructor; cbn; lia.
Qed.

Lemma selector_kernels_compose_witness :
  ∃ (m1 : Z) (b1 b12 : list Z),
    @selector_kernel example_collaborators false (λ _ _, false)
      (example_equals 5 false) [3; 5; 5; 7; 5] [0; 1; 2; 3] 4
    = (Returned m1, b1) ∧
    @selector_kernel example_collaborators false (λ _ _, false)
      (λ _ idx, idx <? 2) [3; 5; 5; 7; 5] b1 m1
    = (Returned 1, b12) ∧
    take 1 b12 = [1].
Proof.
  destruct (@selector_kernels_compose example_collaborators
              false (λ _ _, false) (example_equals 5 false)
              false (λ _ _, false) (λ _ idx, idx <? 2)
              [3; 5; 5; 7; 5] [0; 1; 2; 3] 4)
    as (m1 & m2 & b1 & b12 & b2 & b21 & H1 & H12 & _ & _ & Ht & _).
  - unfold UINT16_MAX. lia.
  - cbn. lia.
  - exact example_selects_rows.
  - exists m1, b1, b12. split; [exact H1|]. split; [exact H12|]. exact Ht.
Defined.

Lemma selector_kernel_idempotent_witness :
  ∃ (new_size : Z) (buffer' : list Z),
    @selector_kernel example_collaborators false (λ _ _, false)
      (example_equals 5 false) [3; 5; 5; 7; 5] [0; 1; 2; 3] 4
    = (Returned new_size, buffer') ∧
    @selector_kernel example_collaborators false (λ _ _, false)
      (example_equals 5 false) [3; 5; 5; 7; 5] buffer' new_size
    = (Returned new_size, buffer').
Proof.
  apply (@selector_kernel_idempotent example_collaborators
           false (λ _ _, false) (example_equals 5 false)
           [3; 5; 5; 7; 5] [0; 1; 2; 3] 4).
  - unfold UINT16_MAX. lia.
  - cbn. lia.
  - exact example_selects_rows.
Defined.

(** ** More on the short-circuit [evaluate] *)

Section EvaluateMore.
Context `{Collaborators} (v : Variant).

(** X5. When the kernel fails (it throws, as the kernel of the base class
    does, or worse), [evaluate] ends with that failure and has touched
    neither the object nor the counters: the sampler was not fed, no counter
    was updated, only the call of the kernel was made. *)
Theorem evaluate_kernel_failure_leaves_state (column : IColumn) (size : Z)
    (w : World) :
  always_true (this w) = false →
  fails_hard (fst (dispatched_kernel v column (sel w) size)) = true →
  fst (evaluate v column size w) = fst (dispatched_kernel v column (sel w) size) ∧
  this (snd (evaluate v column size w)) = this w ∧
  counters (snd (evaluate v column size w)) = counters w ∧
  calls (snd (evaluate v column size w)) = calls w ++ [Call_evaluate_inner size].
Proof.
  intros Hat Hk. by rewrite evaluate_kernel_fails.
Qed.

Lemma evaluate_same_identity (column : IColumn) (size : Z) (w : World) :
  same_identity (this (snd (evaluate v column size w))) (this w).
Proof.
  unfold evaluate.
  erewrite bind_returned by reflexivity. cbn [this].
  destruct (always_true (this w)); [by unfold same_identity|].
  unfold bind at 1. rewrite _evaluate_inner_run.
  destruct (dispatched_kernel v column (sel w) size) as [[n|e|msg|] buffer'];
    cbn [fst snd]; try by unfold same_identity.
  erewrite bind_returned by reflexivity. cbn [this set_sel log_call].
  assert (Hstep : ∀ (m : M unit) (w0 w1 : World),
            m w0 = (Returned tt, w1) → same_identity (this w1) (this w) →
            same_identity
              (this (snd (bind m (λ _, bind (update_filter_info
                                               (to_int64 (size - n)) (to_int64 size))
                                         (λ _, ret n)) w0)))
              (this w)).
  { intros m w0 w1 Hm Hsame. erewrite bind_returned by exact Hm.
    unfold bind at 1.
    pose proof (update_filter_info_this (to_int64 (size - n)) (to_int64 size) w1)
      as Ht.
    destruct (update_filter_info (to_int64 (size - n)) (to_int64 size) w1)
      as [[[]|e|msg|] w2]; cbn in *; by rewrite Ht. }
  destruct (_can_ignore v (this w)); unfold when.
  - eapply Hstep; [reflexivity|]. cbn.
    destruct (do_judge_selectivity_frame v (to_uint64 (size - n))
                (to_uint64 size) (this w)) as (? & ? & ? & ? & ?).
    by unfold same_identity.
  - eapply Hstep; [reflexivity|]. by unfold same_identity.
Qed.

(** X6. No sequence of [evaluate] calls, whatever their outcomes, changes the
    column, the negation flag, the runtime-filter identifier or the two
    counter pointers of the predicate; so a predicate that can be ignored
    stays so, and one that cannot never becomes so, short of a call of
    [attach_profile_counter]. *)
Theorem evaluate_all_keeps_identity
    (batches : list (IColumn * list Z * Z)) (w : World) :
  same_identity (this (evaluate_all v batches w)) (this w) ∧
  (_can_ignore_override v = None →
   _can_ignore v (this (evaluate_all v batches w)) = _can_ignore v (this w)).
Proof.
  assert (Hsame : same_identity (this (evaluate_all v batches w)) (this w)).
  { revert w. induction batches as [|[[column buffer] size] rest IH];
      intros w; [by unfold same_identity|].
    cbn [evaluate_all].
    pose proof (IH (snd (evaluate v column size (set_sel buffer w)))) as H1.
    pose proof (evaluate_same_identity column size (set_sel buffer w)) as H2.
    cbn [this set_sel] in H2.
    unfold same_identity in *. destruct H1 as (-> & -> & -> & -> & ->). done. }
  split; [exact Hsame|].
  intros Hov. unfold _can_ignore. rewrite Hov. unfold Base._can_ignore.
  by destruct Hsame as (_ & _ & -> & _).
Qed.

Lemma counter_add_live (l : positive) (value : Z) (heap : gmap positive Z)
    (old : Z) :
  heap !! l = Some old →
  counter_add (Some l) value heap = <[l := to_int64 (old + value)]> heap.
Proof. intros Hl. unfold counter_add. by rewrite Hl. Qed.

(** X7. The bookkeeping of one [evaluate] whose kernel returned [new_size]:
    the input-rows counter grows by [size] and the filtered-rows counter by
    [size - new_size] (as [int64_t] sums); when both pointers lead to one
    counter it grows by both; no other counter of the heap changes. *)
Theorem evaluate_updates_the_counters (column : IColumn) (size : Z) (w : World)
    (new_size : Z) (buffer' : list Z) (lf li : positive) (vf vi : Z) :
  always_true (this w) = false →
  dispatched_kernel v column (sel w) size = (Returned new_size, buffer') →
  0 ≤ new_size ≤ size ∧ size ≤ UINT16_MAX →
  _predicate_filtered_rows_counter (this w) = Some lf →
  _predicate_input_rows_counter (this w) = Some li →
  counters w !! lf = Some vf →
  counters w !! li = Some vi →
  let after := counters (snd (evaluate v column size w)) in
  fst (evaluate v column size w) = Returned new_size ∧
  (lf ≠ li →
   after !! li = Some (to_int64 (vi + size)) ∧
   after !! lf = Some (to_int64 (vf + (size - new_size)))) ∧
  (lf = li →
   after !! li = Some (to_int64 (to_int64 (vi + size) + (size - new_size)))) ∧
  (∀ l, l ≠ lf → l ≠ li → after !! l = counters w !! l).
Proof.
  intros Hat Hk [Hn Hs] Hpf Hpi Hvf Hvi. unfold UINT16_MAX in Hs.
  assert (Hatt : counters_attached w = true).
  { unfold counters_attached, counter_live. by rewrite Hpf, Hpi, Hvf, Hvi. }
  rewrite (evaluate_kernel_returns v column size w new_size buffer') by done.
  cbn [fst snd counters]. rewrite Hpf, Hpi.
  rewrite (to_int64_id (size - new_size)) by lia.
  rewrite (to_int64_id size) by lia.
  rewrite (counter_add_live li size (counters w) vi Hvi).
  split; [done|]. split_and!.
  - intros Hne.
    rewrite (counter_add_live lf (size - new_size) _ vf)
      by (by rewrite lookup_insert_ne).
    rewrite lookup_insert_eq.
    by rewrite lookup_insert_ne, lookup_insert_eq by done.
  - intros ->.
    rewrite (counter_add_live li (size - new_size) _ (to_int64 (vi + size)))
      by apply lookup_insert_eq.
    by rewrite lookup_insert_eq.
  - intros l Hlf Hli.
    destruct (decide (lf = li)) as [->|Hne].
    + rewrite (counter_add_live li (size - new_size) _ (to_int64 (vi + size)))
        by apply lookup_insert_eq.
      by rewrite !lookup_insert_ne by done.
    + rewrite (counter_add_live lf (size - new_size) _ vf)
        by (by rewrite lookup_insert_ne).
      by rewrite !lookup_insert_ne by done.
Qed.

(** X8. An empty batch is not free: [evaluate] with [size] 0 on a predicate
    that is not always true returns 0 and leaves the buffer alone, but it
    still calls the kernel, still feeds the sampler with [(0, 0)] when the
    predicate can be ignored (one tick of the countdown, a judgment on totals
    that may still be zero) and still updates both counters by 0. *)
Theorem evaluate_empty_batch (is_nullable : bool)
    (WITH WITHOUT : IColumn → Z → bool) (column : IColumn) (w : World) :
  _evaluate_inner_override v = Some (selector_kernel is_nullable WITH WITHOUT) →
  always_true (this w) = false →
  counters_attached w = true →
  evaluate v column 0 w
  = (Returned 0,
     {| this :=
          if _can_ignore v (this w)
          then do_judge_selectivity v 0 0 (this w) else this w;
        counters :=
          counter_add (_predicate_filtered_rows_counter (this w)) 0
            (counter_add (_predicate_input_rows_counter (this w)) 0
               (counters w));
        sel := sel w;
        calls :=
          calls w
          ++ Call_evaluate_inner 0
          :: (if _can_ignore v (this w)
              then [Call_do_judge_selectivity 0 0] else [])
          ++ [Call_update_filter_info 0 0] |}).
Proof.
  intros Hov Hat Hatt.
  rewrite (evaluate_kernel_returns v column 0 w 0 (sel w)); try done.
  unfold dispatched_kernel. rewrite Hov.
  rewrite selector_kernel_spec; [|unfold UINT16_MAX; lia|cbn; lia].
  cbv zeta. unfold walked_selection, identity_selection.
  by destruct (IColumn_size column =? 0).
Qed.

(** X9. One [evaluate] on a runtime-filter predicate that is not always
    true, when the kernel returns [new_size]: the countdown goes down by one
    and the totals grow by [(size - new_size, size)]; or, when the countdown
    was at zero, it is reloaded from the sampling frequency and the totals
    restart from this batch alone.  Either way the flag becomes what
    [judge_selectivity] answers on the new totals, so this is the call that
    can turn the predicate always true. *)
Theorem evaluate_samples_selectivity
    (column : IColumn) (size : Z) (w : World)
    (new_size : Z) (buffer' : list Z) :
  _can_ignore_override v = None →
  _runtime_filter_id (this w) ≠ -1 →
  always_true (this w) = false →
  counters_attached w = true →
  dispatched_kernel v column (sel w) size = (Returned new_size, buffer') →
  0 ≤ new_size ≤ size ∧ size ≤ UINT16_MAX →
  let p := this w in
  let p' := this (snd (evaluate v column size w)) in
  let restart := _judge_counter p =? 0 in
  _judge_counter p'
  = (if restart then runtime_filter_sampling_frequency
     else to_int32 (_judge_counter p - 1)) ∧
  _judge_filter_rows p'
  = to_uint64 ((if restart then 0 else _judge_filter_rows p)
               + (size - new_size)) ∧
  _judge_input_rows p'
  = to_uint64 ((if restart then 0 else _judge_input_rows p) + size) ∧
  _always_true p'
  = judge_selectivity (get_ignore_threshold v)
      (_judge_filter_rows p') (_judge_input_rows p') false.
Proof.
  intros Hov Hid Hat Hatt Hk [Hn Hs]. unfold UINT16_MAX in Hs. cbv zeta.
  rewrite (evaluate_kernel_returns v column size w new_size buffer') by done.
  cbn [snd this]. unfold sampled.
  assert (Hci : _can_ignore v (this w) = true).
  { unfold _can_ignore. rewrite Hov. unfold Base._can_ignore.
    apply negb_true_iff. by apply Z.eqb_neq. }
  rewrite Hci.
  rewrite (to_uint64_id (size - new_size)) by lia.
  rewrite (to_uint64_id size) by lia.
  destruct (Z.eqb_spec (_judge_counter (this w)) 0) as [H0|H0].
  - by apply do_judge_selectivity_expired.
  - by apply do_judge_selectivity_counting.
Qed.

End EvaluateMore.

Lemma evaluate_kernel_failure_leaves_state_witness :
  this (snd (@evaluate example_collaborators
               (@plain_variant example_collaborators PredicateType.IS_NULL)
               [3; 5; 5; 7] 4 example_runtime_filter_world))
  = this example_runtime_filter_world ∧
  counters (snd (@evaluate example_collaborators
                   (@plain_variant example_collaborators PredicateType.IS_NULL)
                   [3; 5; 5; 7] 4 example_runtime_filter_world))
  = counters example_runtime_filter_world.
Proof.
  destruct (@evaluate_kernel_failure_leaves_state example_collaborators
              (@plain_variant example_collaborators PredicateType.IS_NULL)
              [3; 5; 5; 7] 4 example_runtime_filter_world)
    as (_ & Hthis & Hcounters & _).
  - reflexivity.
  - reflexivity.
  - split; [exact Hthis | exact Hcounters].
Defined.

Lemma evaluate_all_keeps_identity_witness :
  @_can_ignore example_collaborators (example_variant 5 false (1 # 2))
    (this (@evaluate_all example_collaborators (example_variant 5 false (1 # 2))
             [([5; 5; 5; 5], [0; 1; 2; 3], 4); ([3; 5; 5; 7], [0; 1; 2; 3], 4)]
             example_runtime_filter_world))
  = true.
Proof.
  rewrite (proj2 (@evaluate_all_keeps_identity example_collaborators
                    (example_variant 5 false (1 # 2))
                    [([5; 5; 5; 5], [0; 1; 2; 3], 4);
                     ([3; 5; 5; 7], [0; 1; 2; 3], 4)]
                    example_runtime_filter_world) eq_refl).
  reflexivity.
Defined.

Lemma evaluate_updates_the_counters_witness :
  counters (snd (@evaluate example_collaborators (example_variant 5 false 0)
                   [3; 5; 5; 7] 4 example_runtime_filter_world)) !! 2%positive
  = Some (to_int64 (0 + 4)) ∧
  counters (snd (@evaluate example_collaborators (example_variant 5 false 0)
                   [3; 5; 5; 7] 4 example_runtime_filter_world)) !! 1%positive
  = Some (to_int64 (0 + (4 - 2))).
Proof.
  destruct (@evaluate_updates_the_counters example_collaborators
              (example_variant 5 false 0) [3; 5; 5; 7] 4
              example_runtime_filter_world 2 [1; 2; 2; 3]
              1%positive 2%positive 0 0)
    as (_ & Hdistinct & _).
  - reflexivity.
  - reflexivity.
  - unfold UINT16_MAX. lia.
  - reflexivity.
  - reflexivity.
  - reflexivity.
  - reflexivity.
  - apply Hdistinct. discriminate.
Defined.

Lemma evaluate_empty_batch_witness :
  fst (@evaluate example_collaborators (example_variant 5 false 0)
         [] 0 example_runtime_filter_world) = Returned 0 ∧
  _judge_counter
    (this (snd (@evaluate example_collaborators (example_variant 5 false 0)
                  [] 0 example_runtime_filter_world))) = 1.
Proof.
  rewrite (@evaluate_empty_batch example_collaborators
             (example_variant 5 false 0) false (λ _ _, false)
             (example_equals 5 false) [] example_runtime_filter_world
             eq_refl eq_refl eq_refl).
  split; reflexivity.
Defined.

Lemma evaluate_samples_selectivity_witness :
  _judge_counter
    (this (snd (@evaluate example_collaborators
                  (example_variant 5 false (1 # 2))
                  [5; 5; 5; 5] 4 example_runtime_filter_world))) = to_int32 (2 - 1) ∧
  _always_true
    (this (snd (@evaluate example_collaborators
                  (example_variant 5 false (1 # 2))
                  [5; 5; 5; 5] 4 example_runtime_filter_world))) = true.
Proof.
  destruct (@evaluate_samples_selectivity example_collaborators
              (example_variant 5 false (1 # 2)) [5; 5; 5; 5] 4
              example_runtime_filter_world 4 [0; 1; 2; 3])
    as (Hc & Hf & Hi & Hat).
  - reflexivity.
  - discriminate.
  - reflexivity.
  - reflexivity.
  - reflexivity.
  - unfold UINT16_MAX. lia.
  - split; [exact Hc|]. rewrite Hat, Hf, Hi. reflexivity.
Defined.

(** ** The sampler on its own: runs of [do_judge_selectivity] *)

Lemma to_int32_id (x : Z) : - 2 ^ 31 ≤ x < 2 ^ 31 → to_int32 x = x.
Proof. intros Hx. unfold to_int32. apply wrap_signed_id; [lia | exact Hx]. Qed.

Lemma total_input_rows_nonneg (feeds : list (Z * Z)) :
  Forall (λ feed, 0 ≤ fst feed ≤ snd feed) feeds → 0 ≤ total_input_rows feeds.
Proof.
  induction 1 as [|[f i] l Hx _ IH]; [done|].
  change (total_input_rows ((f, i) :: l)) with (i + total_input_rows l).
  cbn in Hx. lia.
Qed.

Section SamplerRuns.
Context `{Collaborators} (v : Variant).

Lemma do_judge_selectivity_all_app (feeds1 feeds2 : list (Z * Z))
    (p : ColumnPredicate) :
  do_judge_selectivity_all v (feeds1 ++ feeds2) p
  = do_judge_selectivity_all v feeds2 (do_judge_selectivity_all v feeds1 p).
Proof. unfold do_judge_selectivity_all. apply fold_left_app. Qed.

Lemma do_judge_selectivity_all_cons (filter_rows input_rows : Z)
    (feeds : list (Z * Z)) (p : ColumnPredicate) :
  do_judge_selectivity_all v ((filter_rows, input_rows) :: feeds) p
  = do_judge_selectivity_all v feeds
      (do_judge_selectivity v filter_rows input_rows p).
Proof. reflexivity. Qed.

Lemma do_judge_selectivity_counter (filter_rows input_rows : Z)
    (p : ColumnPredicate) :
  _judge_counter (do_judge_selectivity v filter_rows input_rows p)
  = if _judge_counter p =? 0 then runtime_filter_sampling_frequency
    else to_int32 (_judge_counter p - 1).
Proof.
  unfold do_judge_selectivity, reset_judge_selectivity.
  destruct (_judge_counter p =? 0); cbn; [done|].
  by destruct (_always_true p).
Qed.

Lemma do_judge_selectivity_all_counter (feeds : list (Z * Z))
    (p : ColumnPredicate) :
  (0 ≤ Z.of_nat (length feeds) ≤ _judge_counter p ∧ _judge_counter p < 2 ^ 31) ∨
  (_judge_counter p < 0 ∧ - 2 ^ 31 ≤ _judge_counter p - Z.of_nat (length feeds)) →
  _judge_counter (do_judge_selectivity_all v feeds p)
  = _judge_counter p - Z.of_nat (length feeds).
Proof.
  revert p. induction feeds as [|[f i] feeds IH]; intros p Hc.
  - cbn. lia.
  - rewrite do_judge_selectivity_all_cons. cbn [length] in *.
    pose proof (do_judge_selectivity_counter f i p) as Hstep. cbn in Hstep.
    destruct (Z.eqb_spec (_judge_counter p) 0) as [H0|H0]; [lia|].
    rewrite to_int32_id in Hstep by lia.
    rewrite IH; rewrite Hstep; lia.
Qed.

(** X10. The countdown of the sampler.  From a counter [c >= 0], each of the
    first [c] calls of [do_judge_selectivity] takes exactly one off the
    counter, whatever rows are fed and whatever the flag is, and none of them
    resets the sampler: after any [k <= c] calls the counter is [c - k].  A
    counter that starts negative (a negative sampling frequency) only moves
    further from zero, so the sampler never resets until [int] wraps. *)
Theorem sampler_countdown (feeds : list (Z * Z)) (p : ColumnPredicate) :
  (0 ≤ Z.of_nat (length feeds) ≤ _judge_counter p ∧ _judge_counter p < 2 ^ 31) ∨
  (_judge_counter p < 0 ∧ - 2 ^ 31 ≤ _judge_counter p - Z.of_nat (length feeds)) →
  ∀ k : nat, (k ≤ length feeds)%nat →
    _judge_counter (do_judge_selectivity_all v (take k feeds) p)
    = _judge_counter p - Z.of_nat k.
Proof.
  intros Hc k Hk.
  rewrite do_judge_selectivity_all_counter; rewrite length_take; [|lia].
  f_equal. lia.
Qed.

(** X11. The window expires on the call that finds the counter at zero: after
    exactly [c] calls from counter [c], the next call reloads the counter from
    the sampling frequency, forgets the totals and the flag of the finished
    window, and judges on the rows of this call alone. *)
Theorem sampler_window_expires (feeds : list (Z * Z)) (filter_rows input_rows : Z)
    (p : ColumnPredicate) :
  0 ≤ _judge_counter p < 2 ^ 31 →
  Z.of_nat (length feeds) = _judge_counter p →
  let p' :=
    do_judge_selectivity_all v (feeds ++ [(filter_rows, input_rows)]) p in
  _judge_counter p' = runtime_filter_sampling_frequency ∧
  _judge_filter_rows p' = to_uint64 filter_rows ∧
  _judge_input_rows p' = to_uint64 input_rows ∧
  _always_true p'
  = judge_selectivity (get_ignore_threshold v)
      (to_uint64 filter_rows) (to_uint64 input_rows) false.
Proof.
  intros Hc Hn. cbv zeta. rewrite do_judge_selectivity_all_app.
  pose proof (do_judge_selectivity_all_counter feeds p ltac:(lia)) as Hzero.
  rewrite Hn, Z.sub_diag in Hzero.
  rewrite do_judge_selectivity_all_cons. cbn [do_judge_selectivity_all fold_left].
  destruct (do_judge_selectivity_expired v filter_rows input_rows _ Hzero)
    as (Hc' & Hf & Hi & Hat).
  rewrite Hat, Hf, Hi. done.
Qed.

(** X12. While the flag is set and the counter has not reached zero,
    [do_judge_selectivity] is a pure countdown: the rows fed are not added to
    the totals, [judge_selectivity] is not consulted and the flag stays set;
    only the counter moves. *)
Theorem sampler_always_true_is_frozen (feeds : list (Z * Z))
    (p : ColumnPredicate) :
  _always_true p = true →
  (0 ≤ Z.of_nat (length feeds) ≤ _judge_counter p ∧ _judge_counter p < 2 ^ 31) ∨
  (_judge_counter p < 0 ∧ - 2 ^ 31 ≤ _judge_counter p - Z.of_nat (length feeds)) →
  do_judge_selectivity_all v feeds p
  = with_judge_counter (_judge_counter p - Z.of_nat (length feeds)) p.
Proof.
  revert p. induction feeds as [|[f i] feeds IH]; intros p Hat Hc.
  - cbn. rewrite Z.sub_0_r. by destruct p.
  - rewrite do_judge_selectivity_all_cons. cbn [length] in *.
    assert (Hstep : do_judge_selectivity v f i p
                    = with_judge_counter (_judge_counter p - 1) p).
    { unfold do_judge_selectivity.
      destruct (Z.eqb_spec (_judge_counter p) 0) as [H0|H0]; [lia|].
      cbn. rewrite Hat. cbn. by rewrite to_int32_id by lia. }
    rewrite Hstep, IH; cbn; [|done|lia].
    unfold with_judge_counter. cbn. f_equal. lia.
Qed.

(** X13. The totals of the sampler stay consistent.  If every call feeds at
    most as many filtered rows as input rows (as [evaluate] does, with
    [size - new_size] and [size]) and the input rows fed do not overflow
    [uint64_t], then after any run of calls, resets included, the filtered
    total is at most the input total, which is at most what was fed. *)
Theorem sampler_filtered_within_input (feeds : list (Z * Z))
    (p : ColumnPredicate) :
  0 ≤ _judge_filter_rows p ≤ _judge_input_rows p →
  Forall (λ feed, 0 ≤ fst feed ≤ snd feed) feeds →
  _judge_input_rows p + total_input_rows feeds < 2 ^ 64 →
  let p' := do_judge_selectivity_all v feeds p in
  0 ≤ _judge_filter_rows p' ≤ _judge_input_rows p' ∧
  _judge_input_rows p' ≤ _judge_input_rows p + total_input_rows feeds.
Proof.
  revert p. induction feeds as [|[f i] feeds IH]; intros p Hp Hfeeds Hsum.
  - cbn in *. lia.
  - apply Forall_cons in Hfeeds as [Hfi Hfeeds]. cbn in Hfi.
    cbn [total_input_rows foldr snd] in Hsum.
    fold (total_input_rows feeds) in Hsum.
    pose proof (total_input_rows_nonneg feeds Hfeeds) as Htot.
    cbv zeta. rewrite do_judge_selectivity_all_cons.
    assert (Hstep : 0 ≤ _judge_filter_rows (do_judge_selectivity v f i p)
                      ≤ _judge_input_rows (do_judge_selectivity v f i p) ∧
                    _judge_input_rows (do_judge_selectivity v f i p)
                    ≤ _judge_input_rows p + i).
    { unfold do_judge_selectivity, reset_judge_selectivity.
      destruct (_judge_counter p =? 0); cbn.
      - rewrite !to_uint64_id by lia. lia.
      - destruct (_always_true p); cbn; [lia|].
        rewrite !to_uint64_id by lia. lia. }
    destruct Hstep as [Hinv Hle].
    specialize (IH (do_judge_selectivity v f i p) Hinv Hfeeds ltac:(lia)).
    cbv zeta in IH. cbn [total_input_rows foldr snd].
    fold (total_input_rows feeds). lia.
Qed.

End SamplerRuns.

Lemma sampler_countdown_witness :
  _judge_counter
    (@do_judge_selectivity_all example_collaborators
       (example_variant 5 false (1 # 2)) (take 1 [(0, 4); (1, 4)])
       (this example_runtime_filter_world))
  = _judge_counter (this example_runtime_filter_world) - Z.of_nat 1.
Proof.
  apply (@sampler_countdown example_collaborators
           (example_variant 5 false (1 # 2)) [(0, 4); (1, 4)]
           (this example_runtime_filter_world)).
  - left. vm_compute. repeat split; discriminate.
  - vm_compute. lia.
Defined.

Lemma sampler_window_expires_witness :
  _judge_counter
    (@do_judge_selectivity_all example_collaborators
       (example_variant 5 false (1 # 2)) ([(0, 4); (1, 4)] ++ [(2, 4)])
       (this example_runtime_filter_world)) = 2 ∧
  _judge_input_rows
    (@do_judge_selectivity_all example_collaborators
       (example_variant 5 false (1 # 2)) ([(0, 4); (1, 4)] ++ [(2, 4)])
       (this example_runtime_filter_world)) = to_uint64 4.
Proof.
  destruct (@sampler_window_expires example_collaborators
              (example_variant 5 false (1 # 2)) [(0, 4); (1, 4)] 2 4
              (this example_runtime_filter_world))
    as (Hc & _ & Hi & _).
  - vm_compute. split; [discriminate | reflexivity].
  - reflexivity.
  - split; [exact Hc | exact Hi].
Defined.

Lemma sampler_always_true_is_frozen_witness :
  @do_judge_selectivity_all example_collaborators
    (example_variant 5 false (1 # 2)) [(3, 4)] (this example_always_true_world)
  = with_judge_counter
      (_judge_counter (this example_always_true_world) - Z.of_nat 1)
      (this example_always_true_world).
Proof.
  apply (@sampler_always_true_is_frozen example_collaborators
           (example_variant 5 false (1 # 2)) [(3, 4)]
           (this example_always_true_world)).
  - reflexivity.
  - left. vm_compute. repeat split; discriminate.
Defined.

Lemma sampler_filtered_within_input_witness :
  0 ≤ _judge_filter_rows
        (@do_judge_selectivity_all example_collaborators
           (example_variant 5 false (1 # 2)) [(1, 4); (0, 4)]
           (this example_runtime_filter_world))
    ≤ _judge_input_rows
        (@do_judge_selectivity_all example_collaborators
           (example_variant 5 false (1 # 2)) [(1, 4); (0, 4)]
           (this example_runtime_filter_world)).
Proof.
  apply (@sampler_filtered_within_input example_collaborators
           (example_variant 5 false (1 # 2)) [(1, 4); (0, 4)]
           (this example_runtime_filter_world)).
  - vm_compute. split; discriminate.
  - repeat constructor; cbn; lia.
  - vm_compute. reflexivity.
Defined.

(** ** Construction, attachment and the taxonomy *)


(** X14. The state the constructor leaves: the given column and negation
    flag, no runtime filter, the sampler at the start of a window (counter at
    the sampling frequency, totals zero, flag clear), and two counters that
    are distinct, newly allocated and zero, the rest of the heap unchanged. *)
Theorem ColumnPredicate_new_state `{Collaborators} (column_id : Z)
    (opposite : bool) (heap : gmap positive Z) :
  let p := fst (ColumnPredicate_new column_id opposite heap) in
  let heap' := snd (ColumnPredicate_new column_id opposite heap) in
  (_column_id p = column_id ∧ _opposite p = opposite ∧
   _runtime_filter_id p = -1 ∧
   _judge_counter p = runtime_filter_sampling_frequency ∧
   _judge_input_rows p = 0 ∧ _judge_filter_rows p = 0 ∧
   _always_true p = false) ∧
  ∃ lf li : positive,
    _predicate_filtered_rows_counter p = Some lf ∧
    _predicate_input_rows_counter p = Some li ∧
    lf ≠ li ∧
    heap !! lf = None ∧ heap !! li = None ∧
    heap' !! lf = Some 0 ∧ heap' !! li = Some 0 ∧
    ∀ l, l ≠ lf → l ≠ li → heap' !! l = heap !! l.
Proof.
  unfold ColumnPredicate_new, make_shared_Counter. cbn.
  split; [done|].
  set (lf := fresh (dom heap)).
  set (li := fresh (dom (<[lf:=0]> heap))).
  assert (Hlf : heap !! lf = None).
  { apply not_elem_of_dom. apply is_fresh. }
  assert (Hli : (<[lf:=0]> heap) !! li = None).
  { apply not_elem_of_dom. apply is_fresh. }
  assert (Hne : lf ≠ li).
  { intros Heq. rewrite <- Heq, lookup_insert_eq in Hli. discriminate. }
  exists lf, li. split_and!; try done.
  - by rewrite lookup_insert_ne in Hli.
  - by rewrite lookup_insert_ne, lookup_insert_eq.
  - by rewrite lookup_insert_eq.
  - intros l H1 H2. by rewrite !lookup_insert_ne.
Qed.

(** X15. Two [attach_profile_counter] calls in a row that both return: the
    identifier is the second one's; each counter is the second call's when
    that is non-null, else the first call's when that is non-null, else the
    one held before.  Attaching the same arguments twice is the same as
    attaching them once, failure included. *)
Theorem attach_profile_counter_composes `{Collaborators}
    (id1 id2 : Z) (f1 i1 f2 i2 : shared_ptr) (w : World) :
  let pick (new old : shared_ptr) := if is_not_null new then new else old in
  (fst (attach_twice (id1, f1, i1) (id2, f2, i2) w) = Returned tt →
   let p := this (snd (attach_twice (id1, f1, i1) (id2, f2, i2) w)) in
   _runtime_filter_id p = id2 ∧
   _predicate_filtered_rows_counter p
   = pick f2 (pick f1 (_predicate_filtered_rows_counter (this w))) ∧
   _predicate_input_rows_counter p
   = pick i2 (pick i1 (_predicate_input_rows_counter (this w)))) ∧
  attach_twice (id1, f1, i1) (id1, f1, i1) w
  = attach_profile_counter id1 f1 i1 w.
Proof.
  cbv zeta. unfold attach_twice, attach_profile_counter, DCHECK, bind,
    modify_this, modify, when, ret. cbn [fst snd].
  split.
  - destruct DCHECK_IS_ON, f1, i1, f2, i2; cbn; intros Hr;
      first [discriminate Hr | done].
  - by destruct DCHECK_IS_ON, f1, i1.
Qed.

(** X16. How the five classifications of [PredicateTypeTraits] relate: a
    range kind is a comparison kind; comparison, list and bloom-filter kinds
    are pairwise disjoint; an equal-or-list kind is a comparison or a list
    kind; and the kinds in none of the three classes are exactly UNKNOWN,
    IS_NULL, IS_NOT_NULL, BITMAP_FILTER and MATCH. *)
Theorem classification_classes (type : PredicateType) :
  let range := PredicateTypeTraits.is_range type in
  let comparison := PredicateTypeTraits.is_comparison type in
  let list := PredicateTypeTraits.is_list type in
  let bloom := PredicateTypeTraits.is_bloom_filter type in
  let equal_or_list := PredicateTypeTraits.is_equal_or_list type in
  range && negb comparison = false ∧
  comparison && list = false ∧
  bloom && (comparison || list) = false ∧
  equal_or_list && negb (comparison || list) = false ∧
  (comparison || list || bloom = false ↔
   type ∈ [PredicateType.UNKNOWN; PredicateType.IS_NULL;
           PredicateType.IS_NOT_NULL; PredicateType.BITMAP_FILTER;
           PredicateType.MATCH]).
Proof.
  cbv zeta. split_and!; destruct type; cbn; try done;
    rewrite ?elem_of_cons, ?elem_of_nil; intuition congruence.
Qed.

(** X17. Both renderings tell the kinds apart as far as they have cases:
    two kinds with the same [pred_type_string] (resp. [type_to_string]) are
    the same kind, or both fall to the [default] of the switch. *)
Theorem kind_renderings_tell_kinds_apart (s t : PredicateType) :
  (pred_type_string s = pred_type_string t →
   s = t ∨ (pred_type_string_has_case s = false ∧
            pred_type_string_has_case t = false)) ∧
  (type_to_string s = type_to_string t →
   s = t ∨ (type_to_string_has_case s = false ∧
            type_to_string_has_case t = false)).
Proof.
  split; destruct s, t; cbn; intros Heq;
    first [by left | by right | discriminate Heq].
Qed.

Lemma attach_profile_counter_composes_witness :
  _runtime_filter_id
    (this (snd (@attach_twice example_collaborators
                  (7, Some 1%positive, nullptr) (9, nullptr, Some 2%positive)
                  example_world))) = 9.
Proof.
  apply (proj1 (@attach_profile_counter_composes example_collaborators
                  7 9 (Some 1%positive) nullptr nullptr (Some 2%positive)
                  example_world)).
  reflexivity.
Defined.

Lemma kind_renderings_tell_kinds_apart_witness :
  PredicateType.UNKNOWN = PredicateType.BITMAP_FILTER ∨
  (pred_type_string_has_case PredicateType.UNKNOWN = false ∧
   pred_type_string_has_case PredicateType.BITMAP_FILTER = false).
Proof.
  apply (proj1 (kind_renderings_tell_kinds_apart
                  PredicateType.UNKNOWN PredicateType.BITMAP_FILTER)).
  reflexivity.
Defined.

(** ** The decimal multiplication kernel *)


(** X18. The entry [sgn[i]] the first loop of [vector_vector] computes
    from comparisons of the two operands with zero is the sign of their
    mathematical product. *)
Theorem sign_is_sign_of_product (x y : Z) :
  MultiplyImpl.sign x y = Z.sgn (x * y).
Proof.
  destruct (sign_spec x y) as [[-> Hp]|[[-> Hp]|[-> Hp]]].
  - symmetry. by apply Z.sgn_pos.
  - symmetry. by apply Z.sgn_null.
  - symmetry. by apply Z.sgn_neg.
Qed.

Section MultiplyMore.
Context `{DecimalV2}.
Import MultiplyImpl.

(** X19. The rescaling [(product - sgn) / ONE_BILLION + sgn] rounds away
    from zero: for a product that fits [int128_t] the stored result [r] is
    the ceiling of [product / ONE_BILLION] when the product is positive, the
    floor when it is negative, and 0 when it is 0. *)
Theorem rescale_rounds_away_from_zero (x y : Z) :
  0 < ONE_BILLION →
  in_int128 (x * y) →
  let r := rescale (to_int128 (x * y)) (sign x y) in
  (0 < x * y → (r - 1) * ONE_BILLION < x * y ≤ r * ONE_BILLION) ∧
  (x * y < 0 → r * ONE_BILLION ≤ x * y < (r + 1) * ONE_BILLION) ∧
  (x * y = 0 → r = 0).
Proof.
  intros HB Hp. cbv zeta. unfold rescale.
  rewrite (to_int128_id (x * y)) by exact Hp.
  unfold in_int128, INT128_MIN, INT128_MAX in Hp.
  pose proof (sign_spec x y) as Hs.
  set (s := sign x y) in *. set (p := x * y) in *.
  set (B := ONE_BILLION) in *.
  assert (Hps : in_int128 (p - s)).
  { unfold in_int128, INT128_MIN, INT128_MAX. lia. }
  rewrite (to_int128_id (p - s)) by exact Hps.
  unfold in_int128, INT128_MIN, INT128_MAX in Hps.
  assert (Hq : (0 ≤ p - s → 0 ≤ (p - s) `quot` B ≤ p - s) ∧
               (p - s ≤ 0 → p - s ≤ (p - s) `quot` B ≤ 0)).
  { Z.to_euclidean_division_equations. nia. }
  assert (Hqr : (0 ≤ p - s →
                 B * ((p - s) `quot` B) ≤ p - s < B * ((p - s) `quot` B) + B) ∧
                (p - s ≤ 0 →
                 B * ((p - s) `quot` B) - B < p - s ≤ B * ((p - s) `quot` B))).
  { Z.to_euclidean_division_equations. nia. }
  set (q := (p - s) `quot` B) in *.
  rewrite (to_int128_id q) by (unfold in_int128, INT128_MIN, INT128_MAX; lia).
  rewrite (to_int128_id (q + s))
    by (unfold in_int128, INT128_MIN, INT128_MAX; lia).
  split_and!; intros Hsign.
  - assert (s = 1) as -> by lia. nia.
  - assert (s = -1) as -> by lia. nia.
  - assert (s = 0) as -> by lia. nia.
Qed.

End MultiplyMore.


Section MultiplyArrays.
Context `{DecimalV2}.
Import MultiplyImpl.

(** The second loop without the check: it always returns, having stored the
    rescaled wrapped product of every pair in its range and nothing else. *)
Lemma multiply_loop_unchecked_array (a b sgn : list Z) (bound : nat) :
  (∀ j x y, (j < bound)%nat → a !! j = Some x → b !! j = Some y →
            sgn !! j = Some (sign x y)) →
  (bound ≤ length a)%nat → (bound ≤ length b)%nat →
  ∀ (remaining i : nat) (c : list Z),
    (i + remaining ≤ bound)%nat → (bound ≤ length c)%nat →
    ∃ c',
      multiply_loop false a b sgn remaining i c = (Returned tt, c') ∧
      length c' = length c ∧
      (∀ j, (j < i ∨ i + remaining ≤ j)%nat → c' !! j = c !! j) ∧
      (∀ j x y, (i ≤ j < i + remaining)%nat →
         a !! j = Some x → b !! j = Some y →
         c' !! j = Some (rescale (to_int128 (x * y)) (sign x y))).
Proof.
  intros Hsgn Ha Hb.
  induction remaining as [|remaining IH]; intros i c Hi Hc.
  - exists c. cbn. split_and!; try done. intros; lia.
  - cbn [multiply_loop].
    destruct (lookup_lt_is_Some_2 a i) as [x Hx]; [lia|].
    destruct (lookup_lt_is_Some_2 b i) as [y Hy]; [lia|].
    rewrite Hx, Hy, (Hsgn i x y ltac:(lia) Hx Hy).
    assert (Hin : (i <? length c)%nat = true) by (apply Nat.ltb_lt; lia).
    rewrite Hin.
    set (ci := rescale (to_int128 (x * y)) (sign x y)).
    destruct (IH (S i) (<[i:=ci]> c)) as (c' & Hrun & Hlen & Hold & Hnew);
      [lia | rewrite length_insert; lia |].
    rewrite length_insert in Hlen.
    exists c'. split; [exact Hrun|]. split; [exact Hlen|]. split.
    + intros j Hj. rewrite Hold by lia. apply list_lookup_insert_ne. lia.
    + intros j x' y' Hj Hx' Hy'.
      destruct (decide (j = i)) as [->|Hne].
      * assert (x' = x) as -> by congruence.
        assert (y' = y) as -> by congruence.
        rewrite Hold by lia. apply list_lookup_insert_eq. lia.
      * apply (Hnew j x' y'); [lia | done | done].
Qed.

(** X20. [vector_vector<false>] never throws and never fails on arrays
    of at least [size] entries: it returns having stored, for every index
    below [size], the rescaled product wrapped to 128 bits, and leaves the
    rest of the output array as it was. *)
Theorem unchecked_multiply_never_throws (a b c : list Z) (size : nat) :
  (size ≤ length a)%nat → (size ≤ length b)%nat → (size ≤ length c)%nat →
  ∃ c',
    vector_vector false a b c size = (Returned tt, c') ∧
    length c' = length c ∧
    (∀ j, (size ≤ j)%nat → c' !! j = c !! j) ∧
    (∀ j x y, (j < size)%nat → a !! j = Some x → b !! j = Some y →
       c' !! j = Some (rescale (to_int128 (x * y)) (sign x y))).
Proof.
  intros Ha Hb Hc. unfold vector_vector.
  destruct (vector_vector_sgn a b size Ha Hb) as (sgn & -> & Hsgn).
  destruct (multiply_loop_unchecked_array a b sgn size Hsgn Ha Hb size 0 c
              ltac:(lia) Hc) as (c' & Hrun & Hlen & Hold & Hnew).
  exists c'. split_and!; try done.
  - intros j Hj. apply Hold. lia.
  - intros j x y Hj. apply Hnew. lia.
Qed.

(** X21. When [common::mul_overflow] leaves the wrapped product in its
    result (as the builtin does) and [vector_vector<true>] returns, it has
    written exactly the output array [vector_vector<false>] writes: the check
    changes no result, it only adds the throw. *)
Theorem checked_and_unchecked_multiply_agree (a b c : list Z) (size : nat) :
  (∀ x y, snd (mul_overflow x y) = to_int128 (x * y)) →
  (size ≤ length a)%nat → (size ≤ length b)%nat → (size ≤ length c)%nat →
  fst (vector_vector true a b c size) = Returned tt →
  vector_vector false a b c size = vector_vector true a b c size.
Proof.
  intros Hwrap Ha Hb Hc. unfold vector_vector.
  destruct (vector_vector_sgn a b size Ha Hb) as (sgn & -> & Hsgn).
  destruct (multiply_loop_unchecked_array a b sgn size Hsgn Ha Hb size 0 c
              ltac:(lia) Hc) as (c2 & -> & Hlen2 & Hold2 & Hnew2).
  pose proof (multiply_loop_checked_array a b sgn size Hsgn Ha Hb size 0 c
                ltac:(lia) Hc) as Hloop.
  destruct (multiply_loop true a b sgn size 0 c) as [[[]|e|msg|] c1];
    cbn; intros Hret; try done.
  destruct Hloop as (Hlen1 & Hold1 & Hnew1). f_equal.
  apply list_eq. intros j.
  destruct (decide (j < size)%nat) as [Hj|Hj].
  - destruct (lookup_lt_is_Some_2 a j) as [x Hx]; [lia|].
    destruct (lookup_lt_is_Some_2 b j) as [y Hy]; [lia|].
    rewrite (Hnew2 j x y ltac:(lia) Hx Hy).
    destruct (Hnew1 j x y ltac:(lia) Hx Hy) as [_ ->].
    unfold stored. by rewrite Hwrap.
  - rewrite Hold2, Hold1 by lia. done.
Qed.

(** X22. A throw of [vector_vector<true>] leaves the output array
    partly written.  It comes from the first pair that overflows and carries
    that pair: no earlier pair overflows and the results of all earlier
    pairs are stored, the entry of the offending pair is the out-of-range
    result when the range check threw and the old entry when [mul_overflow]
    reported, and every later entry is the old one. *)
Theorem checked_multiply_throw_leaves_partial_output (a b c : list Z)
    (size : nat) (e : Exception) (c' : list Z) :
  (size ≤ length a)%nat → (size ≤ length b)%nat → (size ≤ length c)%nat →
  vector_vector true a b c size = (Thrown e, c') →
  ∃ k x y,
    (k < size)%nat ∧ a !! k = Some x ∧ b !! k = Some y ∧
    overflows x y = true ∧
    e = DecimalBinaryOpOverflow x "multiply" y
          (snd (mul_overflow x y)) "decimalv2" ∧
    length c' = length c ∧
    (∀ j x' y', (j < k)%nat → a !! j = Some x' → b !! j = Some y' →
       overflows x' y' = false ∧ c' !! j = Some (stored x' y')) ∧
    c' !! k = (if fst (mul_overflow x y) then c !! k else Some (stored x y)) ∧
    (∀ j, (k < j)%nat → c' !! j = c !! j).
Proof.
  intros Ha Hb Hc. unfold vector_vector.
  destruct (vector_vector_sgn a b size Ha Hb) as (sgn & -> & Hsgn).
  pose proof (multiply_loop_checked_array a b sgn size Hsgn Ha Hb size 0 c
                ltac:(lia) Hc) as Hloop.
  intros Hrun. rewrite Hrun in Hloop.
  destruct Hloop as (k & x & y & Hk & Hx & Hy & Hover & He & Hlen & Hbefore
                     & Hat & Hold).
  exists k, x, y. split_and!; try done; try lia.
  - intros j x' y' Hj Hx' Hy'. apply (Hbefore j x' y'); [lia|done|done].
  - intros j Hj. apply Hold. lia.
Qed.

End MultiplyArrays.

Lemma rescale_rounds_away_from_zero_witness :
  (@MultiplyImpl.rescale example_decimalv2 (to_int128 (3 * 1))
     (MultiplyImpl.sign 3 1) - 1) * 1000000000 < 3 * 1
  ≤ @MultiplyImpl.rescale example_decimalv2 (to_int128 (3 * 1))
      (MultiplyImpl.sign 3 1) * 1000000000.
Proof.
  apply (@rescale_rounds_away_from_zero example_decimalv2 3 1).
  - reflexivity.
  - vm_compute. split; discriminate.
  - reflexivity.
Defined.

Lemma unchecked_multiply_never_throws_witness :
  ∃ c',
    @MultiplyImpl.vector_vector example_decimalv2 false
      [2500000000; 3000000000] [2000000000; -500000000] [0; 0; 7] 2
    = (Returned tt, c') ∧
    length c' = 3%nat.
Proof.
  destruct (@unchecked_multiply_never_throws example_decimalv2
              [2500000000; 3000000000] [2000000000; -500000000] [0; 0; 7] 2)
    as (c' & Hrun & Hlen & _).
  - cbn. lia.
  - cbn. lia.
  - cbn. lia.
  - exists c'. split; [exact Hrun | exact Hlen].
Defined.

Lemma checked_and_unchecked_multiply_agree_witness :
  @MultiplyImpl.vector_vector example_decimalv2 false
    [2500000000; 3000000000] [2000000000; -500000000] [0; 0] 2
  = @MultiplyImpl.vector_vector example_decimalv2 true
      [2500000000; 3000000000] [2000000000; -500000000] [0; 0] 2.
Proof.
  apply (@checked_and_unchecked_multiply_agree example_decimalv2).
  - intros x y. reflexivity.
  - cbn. lia.
  - cbn. lia.
  - cbn. lia.
  - reflexivity.
Defined.

Lemma checked_multiply_throw_leaves_partial_output_witness :
  ∃ k x y,
    (k < 2)%nat ∧
    [2500000000; 999999999999999999999999999] !! k = Some x ∧
    [2000000000; 999999999999999999999999999] !! k = Some y ∧
    @MultiplyImpl.overflows example_decimalv2 x y = true ∧
    (∀ j x' y', (j < k)%nat →
       [2500000000; 999999999999999999999999999] !! j = Some x' →
       [2000000000; 999999999999999999999999999] !! j = Some y' →
       @MultiplyImpl.overflows example_decimalv2 x' y' = false ∧
       [5000000000; 0] !! j
       = Some (@MultiplyImpl.stored example_decimalv2 x' y')).
Proof.
  destruct (@checked_multiply_throw_leaves_partial_output example_decimalv2
              [2500000000; 999999999999999999999999999]
              [2000000000; 999999999999999999999999999] [0; 0] 2
              (DecimalBinaryOpOverflow
                 999999999999999999999999999 "multiply"
                 999999999999999999999999999
                 (to_int128
                    (999999999999999999999999999 * 999999999999999999999999999))
                 "decimalv2")
              [5000000000; 0])
    as (k & x & y & Hk & Hx & Hy & Hover & _ & _ & Hbefore & _).
  - cbn. lia.
  - cbn. lia.
  - cbn. lia.
  - reflexivity.
  - exists k, x, y. split_and!; done.
Defined.

(** ** The zone-map decoder as a function of the bytes *)

(** For every result type, what the decoder returns is the recorded decoding
    carried into that type: the member functions are called on a
    default-constructed [res] and on the decoded fields only. *)
Lemma get_zone_map_value_factors {ResultType} `{ZoneMapResult ResultType}
    (primitive_type : PrimitiveType) (data_ptr : list byte) :
  get_zone_map_value primitive_type data_ptr
  = decode_into
      <$> @get_zone_map_value Decoded (Decoded_result sizeof_ResultType)
            primitive_type data_ptr.
Proof.
  unfold get_zone_map_value.
  destruct primitive_type as [| | |tag]; cbn.
  - by destruct (memcpy sizeof_decimal12_t data_ptr).
  - by destruct (memcpy sizeof_uint24_t data_ptr).
  - by destruct (memcpy sizeof_uint64_t data_ptr).
  - by destruct (memcpy sizeof_ResultType data_ptr).
Qed.


Lemma byte_to_N_bound (b : byte) : (Byte.to_N b < 256)%N.
Proof. by destruct b. Qed.

Lemma little_endian_bound (bytes : list byte) :
  0 ≤ little_endian bytes < 256 ^ Z.of_nat (length bytes).
Proof.
  induction bytes as [|b bytes IH]; [cbn; lia|].
  change (little_endian (b :: bytes))
    with (Z.of_N (Byte.to_N b) + 256 * little_endian bytes).
  cbn [length]. rewrite Nat2Z.inj_succ, Z.pow_succ_r by lia.
  pose proof (byte_to_N_bound b). lia.
Qed.

Lemma little_endian_inj (bytes1 bytes2 : list byte) :
  length bytes1 = length bytes2 →
  little_endian bytes1 = little_endian bytes2 → bytes1 = bytes2.
Proof.
  revert bytes2. induction bytes1 as [|b1 bytes1 IH];
    intros [|b2 bytes2] Hlen Heq; try done.
  change (Z.of_N (Byte.to_N b1) + 256 * little_endian bytes1
          = Z.of_N (Byte.to_N b2) + 256 * little_endian bytes2) in Heq.
  pose proof (byte_to_N_bound b1). pose proof (byte_to_N_bound b2).
  assert (Hb : Byte.to_N b1 = Byte.to_N b2) by lia.
  assert (Hr : little_endian bytes1 = little_endian bytes2) by lia.
  f_equal.
  - apply (f_equal Byte.of_N) in Hb. rewrite !Byte.of_to_N in Hb. congruence.
  - apply IH; [by injection Hlen | exact Hr].
Qed.

Lemma wrap_signed_inj (bits x y : Z) :
  0 < bits → 0 ≤ x < 2 ^ bits → 0 ≤ y < 2 ^ bits →
  wrap_signed bits x = wrap_signed bits y → x = y.
Proof.
  intros Hb Hx Hy. unfold wrap_signed.
  assert (2 ^ bits = 2 * 2 ^ (bits - 1)) as Hpow.
  { rewrite <- Z.pow_succ_r by lia. f_equal. lia. }
  intros Heq.
  assert (Hmod : (x + 2 ^ (bits - 1)) mod 2 ^ bits
                 = (y + 2 ^ (bits - 1)) mod 2 ^ bits) by lia.
  clear Heq. revert Hmod.
  pose proof (Z.pow_pos_nonneg 2 (bits - 1) ltac:(lia) ltac:(lia)).
  destruct (Z_lt_le_dec x (2 ^ (bits - 1))), (Z_lt_le_dec y (2 ^ (bits - 1))).
  - rewrite !Z.mod_small by lia. lia.
  - rewrite (Z.mod_small (x + _)) by lia.
    rewrite <- (Z.mod_add (y + _) (-1)) by lia.
    rewrite (Z.mod_small (y + _ + _)) by lia. lia.
  - rewrite (Z.mod_small (y + _)) by lia.
    rewrite <- (Z.mod_add (x + _) (-1)) by lia.
    rewrite (Z.mod_small (x + _ + _)) by lia. lia.
  - rewrite <- (Z.mod_add (x + _) (-1)) by lia.
    rewrite <- (Z.mod_add (y + _) (-1)) by lia.
    rewrite !Z.mod_small by lia. lia.
Qed.

Lemma wrap_signed_range (bits x : Z) :
  0 < bits → - 2 ^ (bits - 1) ≤ wrap_signed bits x < 2 ^ (bits - 1).
Proof.
  intros Hb. unfold wrap_signed.
  assert (2 ^ bits = 2 * 2 ^ (bits - 1)) as Hpow.
  { rewrite <- Z.pow_succ_r by lia. f_equal. lia. }
  pose proof (Z.pow_pos_nonneg 2 (bits - 1) ltac:(lia) ltac:(lia)).
  pose proof (Z.mod_pos_bound (x + 2 ^ (bits - 1)) (2 ^ bits) ltac:(lia)).
  lia.
Qed.

Lemma little_endian_take_bound (n : nat) (data : list byte) :
  (n ≤ length data)%nat →
  0 ≤ little_endian (take n data) < 256 ^ Z.of_nat n.
Proof.
  intros Hn. pose proof (little_endian_bound (take n data)) as Hb.
  by rewrite length_take, Nat.min_l in Hb by lia.
Qed.

(** The two fields of a [decimal12_t] determine its twelve bytes. *)
Lemma decimal12_fields_inj (object1 object2 : list byte) :
  length object1 = 12%nat → length object2 = 12%nat →
  decimal12_integer object1 = decimal12_integer object2 →
  decimal12_fraction object1 = decimal12_fraction object2 →
  object1 = object2.
Proof.
  intros H1 H2 Hi Hf.
  unfold decimal12_integer, decimal12_fraction, to_int64, to_int32 in *.
  apply wrap_signed_inj in Hi; [|lia|..].
  2,3: change (2 ^ 64) with (256 ^ Z.of_nat 8);
       apply little_endian_take_bound; lia.
  apply wrap_signed_inj in Hf; [|lia|..].
  2,3: change (2 ^ 32) with (256 ^ Z.of_nat 4);
       apply little_endian_take_bound; rewrite length_drop; lia.
  apply little_endian_inj in Hi; [|rewrite !length_take; lia].
  apply little_endian_inj in Hf;
    [|rewrite !length_take, !length_drop; lia].
  rewrite <- (take_drop 8 object1), <- (take_drop 8 object2), Hi. f_equal.
  rewrite <- (take_ge (drop 8 object1) 4) by (rewrite length_drop; lia).
  rewrite <- (take_ge (drop 8 object2) 4) by (rewrite length_drop; lia).
  exact Hf.
Qed.

(** X23. Decoding loses nothing and yields values in range.  Recorded as
    the call made, two byte runs decode to the same value exactly when they
    agree on the bytes read; the decimal fields are an [int64_t] and an
    [int32_t], a date is below [2^24], a datetime below [2^64], and a
    reinterpreted object has [sizeof(ResultType)] bytes. *)
Theorem get_zone_map_value_keeps_the_bytes (size : nat)
    (primitive_type : PrimitiveType) (data1 data2 : list byte) :
  let read := @bytes_read Decoded (Decoded_result size) primitive_type in
  (read ≤ length data1)%nat → (read ≤ length data2)%nat →
  (@get_zone_map_value Decoded (Decoded_result size) primitive_type data1
   = @get_zone_map_value Decoded (Decoded_result size) primitive_type data2 ↔
   take read data1 = take read data2) ∧
  match @get_zone_map_value Decoded (Decoded_result size) primitive_type data1
  with
  | Some (From_olap_decimal integer fraction) =>
      - 2 ^ 63 ≤ integer < 2 ^ 63 ∧ - 2 ^ 31 ≤ fraction < 2 ^ 31
  | Some (From_olap_date date) => 0 ≤ date < 2 ^ 24
  | Some (From_olap_datetime datetime) => 0 ≤ datetime < 2 ^ 64
  | Some (Reinterpreted object) => length object = size
  | _ => False
  end.
Proof.
  cbv zeta. intros H1 H2. unfold get_zone_map_value.
  destruct primitive_type as [| | |tag]; cbn in H1, H2 |- *;
    rewrite !memcpy_enough by done.
  - unfold sizeof_decimal12_t in *. split.
    + split; [|by intros ->]. intros Heq. injection Heq as Hi Hf.
      apply decimal12_fields_inj; [rewrite length_take; lia..|done|done].
    + unfold decimal12_integer, decimal12_fraction, to_int64, to_int32.
      split; [apply (wrap_signed_range 64) | apply (wrap_signed_range 32)]; lia.
  - unfold sizeof_uint24_t, uint24_value in *. split.
    + split; [|by intros ->]. intros Heq. injection Heq as Hd.
      apply little_endian_inj in Hd; [done | rewrite !length_take; lia].
    + change (2 ^ 24) with (256 ^ Z.of_nat 3).
      by apply little_endian_take_bound.
  - unfold sizeof_uint64_t, uint64_value in *. split.
    + split; [|by intros ->]. intros Heq. injection Heq as Hd.
      apply little_endian_inj in Hd; [done | rewrite !length_take; lia].
    + change (2 ^ 64) with (256 ^ Z.of_nat 8).
      by apply little_endian_take_bound.
  - split.
    + split; [|by intros ->]. by intros [= ->].
    + rewrite length_take. lia.
Qed.

Lemma get_zone_map_value_keeps_the_bytes_witness :
  (@get_zone_map_value Decoded (Decoded_result 4) TYPE_DATE [x01; x02; x03; x04]
   = @get_zone_map_value Decoded (Decoded_result 4) TYPE_DATE
       [x01; x02; x03; xff; xff] ↔
   take 3 [x01; x02; x03; x04] = take 3 [x01; x02; x03; xff; xff]).
Proof.
  destruct (get_zone_map_value_keeps_the_bytes 4 TYPE_DATE
              [x01; x02; x03; x04] [x01; x02; x03; xff; xff]) as [Hiff _].
  - vm_compute. lia.
  - vm_compute. lia.
  - exact Hiff.
Defined.

(** End of the development. *)
